(** * The service-worker audit: scope matching and start_url validation

    A shallow embedding of the class [ServiceWorker] (the audit
    'service-worker'): [getVersionsForOrigin], [getControllingServiceWorker],
    [checkStartUrl] and [audit], with the properties the specification
    states about them.

    JavaScript values are modelled as follows.
    - A string is a [string]; one character of the model stands for one
      code unit, so [String.length] is the [.length] of the source.
    - An array is a [list]; [Array.prototype.filter], [find], [sort] and
      [pop] are the list functions defined below.
    - An object with optional keys is a record with [option] fields;
      [undefined] and [null] are [None].
    - A call that may throw returns a [completion]: [Normal v] or [Throw e]. *)

From Stdlib Require Import List String Ascii Bool Arith ZArith Lia.
From Stdlib Require Import Permutation Sorted.
Import ListNotations.
Local Open Scope string_scope.
Local Open Scope list_scope.

Set Implicit Arguments.

(** ** Completions: normal return or a thrown error *)

(** The only error the audit can raise is the [TypeError] of the URL
    constructor on a string that is not a URL. *)
Inductive JsError : Type :=
| TypeError_InvalidURL.

Inductive completion (A : Type) : Type :=
| Normal (a : A)
| Throw (e : JsError).

Arguments Normal {A} a.
Arguments Throw {A} e.

Definition bind {A B : Type} (c : completion A) (k : A -> completion B)
  : completion B :=
  match c with
  | Normal a => k a
  | Throw e => Throw e
  end.

Declare Scope completion_scope.
Delimit Scope completion_scope with completion.
Notation "x <- c ;; k" := (bind c (fun x => k))
  (at level 61, c at next level, right associativity) : completion_scope.
Local Open Scope completion_scope.

Definition returns {A : Type} (c : completion A) : Prop :=
  exists a, c = Normal a.

(** ** Arrays *)

(** [Array.prototype.filter] with a callback that may throw: the callback
    runs on the elements from left to right and the first throw aborts. *)
Fixpoint filter_c {A : Type} (f : A -> completion bool) (l : list A)
  : completion (list A) :=
  match l with
  | [] => Normal []
  | x :: rest =>
      b <- f x ;;
      kept <- filter_c f rest ;;
      Normal (if b then x :: kept else kept)
  end.

(** [Array.prototype.sort(cmp)]: the sort is stable (ECMAScript 2019 and
    later), so with a consistent comparator its result is the one of
    a stable insertion sort. [x] goes before the first [y] that does not
    compare below it. *)
Fixpoint sort_insert {A : Type} (cmp : A -> A -> Z) (x : A) (l : list A)
  : list A :=
  match l with
  | [] => [x]
  | y :: rest =>
      if (cmp x y <=? 0)%Z then x :: y :: rest
      else y :: sort_insert cmp x rest
  end.

Fixpoint sort {A : Type} (cmp : A -> A -> Z) (l : list A) : list A :=
  match l with
  | [] => []
  | x :: rest => sort_insert cmp x (sort cmp rest)
  end.

(** [Array.prototype.pop]: the last element, [undefined] on an empty array. *)
Fixpoint pop {A : Type} (l : list A) : option A :=
  match l with
  | [] => None
  | [x] => Some x
  | _ :: rest => pop rest
  end.

(** [String.prototype.startsWith]: [startsWith s p] is [s.startsWith(p)]. *)
Definition startsWith (s p : string) : bool := String.prefix p s.

(** ** The URL class

    The audit obtains [URL] from '../lib/url-shim.js', which is not part of
    the sources; the audit uses the constructor and the properties [href]
    and [origin] only. The class is a parameter of the development:
    [URL_parse s] is [None] where [new URL(s)] throws. *)

Record URL : Type := { href : string; origin : string }.

Class UrlShim : Type := { URL_parse : string -> option URL }.

Definition new_URL `{UrlShim} (s : string) : completion URL :=
  match URL_parse s with
  | Some u => Normal u
  | None => Throw TypeError_InvalidURL
  end.

(** Modelled from the spec: url-shim.js is absent; the specification states
    that normalization is a fixed point, that is, the href of a URL
    constructs a URL with that same href. *)
Definition href_is_fixed_point (U : UrlShim) : Prop :=
  forall s u, URL_parse s = Some u ->
    exists u', URL_parse (href u) = Some u' /\ href u' = href u.

(** A string is normalized when constructing a URL from it and reading the
    href gives the string back. *)
Definition normalized `{UrlShim} (s : string) : Prop :=
  exists u, URL_parse s = Some u /\ href u = s.

(** ** Data model *)

Module Version.
Record t : Type :=
  { status : string; scriptURL : string; registrationId : string }.
End Version.

Module Registration.
Record t : Type := { registrationId : string; scopeURL : string }.
End Registration.

(** The parsed manifest; [start_url] is [value.start_url.value]. *)
Module ManifestValues.
Record t : Type := { start_url : string }.
End ManifestValues.

Module Manifest.
Record t : Type := { value : option ManifestValues.t }.
End Manifest.

Module Artifacts.
Record URL_t : Type := { finalUrl : string }.
Record ServiceWorker_t : Type :=
  { versions : list Version.t; registrations : list Registration.t }.
Record t : Type :=
  { URL : URL_t;
    ServiceWorker : ServiceWorker_t;
    WebAppManifest : option Manifest.t }.
End Artifacts.

(** An element of [scriptByScopeUrlList]. *)
Record ScriptByScope : Type := { scopeUrl : string; scriptUrl : string }.

(** ** Messages

    '../lib/i18n/i18n.js' is not part of the sources. *)

Module UIStrings.
Definition explanationOutOfScope : string :=
  "This origin has one or more service workers, however the page ({pageUrl}) is not in scope.".
Definition explanationNoManifest : string :=
  "This page is controlled by a service worker, however no `start_url` was found because no manifest was fetched.".
Definition explanationBadManifest : string :=
  "This page is controlled by a service worker, however no `start_url` was found because manifest failed to parse as valid JSON".
Definition explanationBadStartUrl : string :=
  "This page is controlled by a service worker, however the `start_url` ({startUrl}) is not in the service worker's scope ({scopeUrl})".
End UIStrings.

(** Modelled from the spec: [i18n.createMessageInstanceIdFn] is absent; a
    message instance is the template with the values of its named
    placeholders, left to a formatting layer. *)
Record IcuMessage : Type :=
  { message : string; values : list (string * string) }.

Definition str_ (msg : string) (vals : list (string * string)) : IcuMessage :=
  {| message := msg; values := vals |}.

Module DebugData.
Record t : Type := { type : string; scriptUrl : string; scopeUrl : string }.
End DebugData.

Module Product.
Record t : Type :=
  { score : nat;
    explanation : option IcuMessage;
    details : option DebugData.t }.
End Product.

(** ** The audit *)

Section ServiceWorker.

Context {U : UrlShim}.

Definition getVersionsForOrigin (versions : list Version.t) (pageUrl : URL)
  : completion (list Version.t) :=
  filter_c
    (fun v => u <- new_URL (Version.scriptURL v) ;;
              Normal (origin u =? origin pageUrl)%string)
    (filter (fun v => (Version.status v =? "activated")%string) versions).

(** The loop that fills [scriptByScopeUrlList]; the array is the state. *)
Fixpoint populate (matchingSWVersions : list Version.t)
    (registrations : list Registration.t)
    (scriptByScopeUrlList : list ScriptByScope)
  : completion (list ScriptByScope) :=
  match matchingSWVersions with
  | [] => Normal scriptByScopeUrlList
  | version :: rest =>
      match find (fun r => (Registration.registrationId r
                            =? Version.registrationId version)%string)
                 registrations with
      | Some matchedRegistration =>
          scope <- new_URL (Registration.scopeURL matchedRegistration) ;;
          script <- new_URL (Version.scriptURL version) ;;
          populate rest registrations
            (scriptByScopeUrlList
               ++ [{| scopeUrl := href scope; scriptUrl := href script |}])
      | None => populate rest registrations scriptByScopeUrlList
      end
  end.

Definition by_scope_length (ssA ssB : ScriptByScope) : Z :=
  (Z.of_nat (String.length (scopeUrl ssA))
   - Z.of_nat (String.length (scopeUrl ssB)))%Z.

Definition getControllingServiceWorker (matchingSWVersions : list Version.t)
    (registrations : list Registration.t) (pageUrl : URL)
  : completion (option ScriptByScope) :=
  scriptByScopeUrlList <- populate matchingSWVersions registrations [] ;;
  Normal
    (pop
       (sort by_scope_length
          (filter (fun ss => startsWith (href pageUrl) (scopeUrl ss))
                  scriptByScopeUrlList))).

Definition checkStartUrl (WebAppManifest : option Manifest.t)
    (scopeUrl : string) : option IcuMessage :=
  match WebAppManifest with
  | None => Some (str_ UIStrings.explanationNoManifest [])
  | Some manifest =>
      match Manifest.value manifest with
      | None => Some (str_ UIStrings.explanationBadManifest [])
      | Some v =>
          let startUrl := ManifestValues.start_url v in
          if negb (startsWith startUrl scopeUrl)
          then Some (str_ UIStrings.explanationBadStartUrl
                       [("startUrl", startUrl); ("scopeUrl", scopeUrl)])
          else None
      end
  end.

Definition audit (artifacts : Artifacts.t) : completion Product.t :=
  pageUrl <- new_URL (Artifacts.finalUrl (Artifacts.URL artifacts)) ;;
  let versions := Artifacts.versions (Artifacts.ServiceWorker artifacts) in
  let registrations :=
    Artifacts.registrations (Artifacts.ServiceWorker artifacts) in
  versionsForOrigin <- getVersionsForOrigin versions pageUrl ;;
  if (List.length versionsForOrigin =? 0)%nat then
    Normal {| Product.score := 0;
              Product.explanation := None;
              Product.details := None |}
  else
    serviceWorkerUrls <-
      getControllingServiceWorker versionsForOrigin registrations pageUrl ;;
    match serviceWorkerUrls with
    | None =>
        Normal {| Product.score := 0;
                  Product.explanation :=
                    Some (str_ UIStrings.explanationOutOfScope
                            [("pageUrl", href pageUrl)]);
                  Product.details := None |}
    | Some ss =>
        let details :=
          {| DebugData.type := "debugdata";
             DebugData.scriptUrl := scriptUrl ss;
             DebugData.scopeUrl := scopeUrl ss |} in
        match checkStartUrl (Artifacts.WebAppManifest artifacts)
                (scopeUrl ss) with
        | Some startUrlFailure =>
            Normal {| Product.score := 0;
                      Product.explanation := Some startUrlFailure;
                      Product.details := Some details |}
        | None =>
            Normal {| Product.score := 1;
                      Product.explanation := None;
                      Product.details := Some details |}
        end
    end.

End ServiceWorker.

(** ** The [startsWith] calls of an evaluation

    The same functions with every [startsWith] call recorded: a [traced]
    value carries the operands of the calls made to compute it, in the
    order of the calls. *)

Record Comparison : Type := { receiver : string; searched : string }.

Definition traced (A : Type) : Type := (A * list Comparison)%type.

Definition startsWith_t (s p : string) : traced bool :=
  (startsWith s p, [{| receiver := s; searched := p |}]).

Fixpoint filter_t {A : Type} (f : A -> traced bool) (l : list A)
  : traced (list A) :=
  match l with
  | [] => ([], [])
  | x :: rest =>
      let (b, calls) := f x in
      let (kept, calls') := filter_t f rest in
      (if b then x :: kept else kept, calls ++ calls')
  end.

Section ServiceWorkerTraced.

Context {U : UrlShim}.

Definition getControllingServiceWorker_t
    (matchingSWVersions : list Version.t)
    (registrations : list Registration.t) (pageUrl : URL)
  : completion (traced (option ScriptByScope)) :=
  scriptByScopeUrlList <- populate matchingSWVersions registrations [] ;;
  let (inScope, calls) :=
    filter_t (fun ss => startsWith_t (href pageUrl) (scopeUrl ss))
             scriptByScopeUrlList in
  Normal (pop (sort by_scope_length inScope), calls).

Definition checkStartUrl_t (WebAppManifest : option Manifest.t)
    (scopeUrl : string) : traced (option IcuMessage) :=
  match WebAppManifest with
  | None => (Some (str_ UIStrings.explanationNoManifest []), [])
  | Some manifest =>
      match Manifest.value manifest with
      | None => (Some (str_ UIStrings.explanationBadManifest []), [])
      | Some v =>
          let startUrl := ManifestValues.start_url v in
          let (inScope, calls) := startsWith_t startUrl scopeUrl in
          (if negb inScope
           then Some (str_ UIStrings.explanationBadStartUrl
                        [("startUrl", startUrl); ("scopeUrl", scopeUrl)])
           else None, calls)
      end
  end.

Definition audit_t (artifacts : Artifacts.t) : completion (traced Product.t) :=
  pageUrl <- new_URL (Artifacts.finalUrl (Artifacts.URL artifacts)) ;;
  let versions := Artifacts.versions (Artifacts.ServiceWorker artifacts) in
  let registrations :=
    Artifacts.registrations (Artifacts.ServiceWorker artifacts) in
  versionsForOrigin <- getVersionsForOrigin versions pageUrl ;;
  if (List.length versionsForOrigin =? 0)%nat then
    Normal ({| Product.score := 0;
               Product.explanation := None;
               Product.details := None |}, [])
  else
    resolved <-
      getControllingServiceWorker_t versionsForOrigin registrations pageUrl ;;
    let (serviceWorkerUrls, calls) := resolved in
    match serviceWorkerUrls with
    | None =>
        Normal ({| Product.score := 0;
                   Product.explanation :=
                     Some (str_ UIStrings.explanationOutOfScope
                             [("pageUrl", href pageUrl)]);
                   Product.details := None |}, calls)
    | Some ss =>
        let details :=
          {| DebugData.type := "debugdata";
             DebugData.scriptUrl := scriptUrl ss;
             DebugData.scopeUrl := scopeUrl ss |} in
        let (failure, calls') :=
          checkStartUrl_t (Artifacts.WebAppManifest artifacts) (scopeUrl ss) in
        match failure with
        | Some startUrlFailure =>
            Normal ({| Product.score := 0;
                       Product.explanation := Some startUrlFailure;
                       Product.details := Some details |}, calls ++ calls')
        | None =>
            Normal ({| Product.score := 1;
                       Product.explanation := None;
                       Product.details := Some details |}, calls ++ calls')
        end
    end.

(** The string the start-URL validator reads from the manifest artifact. *)
Definition manifest_start_url (artifacts : Artifacts.t) : option string :=
  match Artifacts.WebAppManifest artifacts with
  | Some manifest =>
      match Manifest.value manifest with
      | Some v => Some (ManifestValues.start_url v)
      | None => None
      end
  | None => None
  end.

(** ** The words of the specification *)

(** The versions the origin filter is specified to keep: [status] is
    'activated' and the origin of [scriptURL] is the origin of the page. *)
Definition activated_on_origin (pageUrl : URL) (v : Version.t) : bool :=
  (Version.status v =? "activated")%string
  && match URL_parse (Version.scriptURL v) with
     | Some u => (origin u =? origin pageUrl)%string
     | None => false
     end.

(** The URLs an evaluation constructs: [finalUrl], the [scriptURL] of every
    activated version, and the [scopeURL] of the registration joined to
    every activated version of the page's origin. *)
Definition constructs_urls (artifacts : Artifacts.t) : Prop :=
  exists pageUrl,
    URL_parse (Artifacts.finalUrl (Artifacts.URL artifacts)) = Some pageUrl
    /\ (forall v,
          In v (Artifacts.versions (Artifacts.ServiceWorker artifacts)) ->
          Version.status v = "activated" ->
          URL_parse (Version.scriptURL v) <> None)
    /\ (forall v r,
          In v (Artifacts.versions (Artifacts.ServiceWorker artifacts)) ->
          activated_on_origin pageUrl v = true ->
          find (fun r => (Registration.registrationId r
                          =? Version.registrationId v)%string)
               (Artifacts.registrations (Artifacts.ServiceWorker artifacts))
            = Some r ->
          URL_parse (Registration.scopeURL r) <> None).

End ServiceWorkerTraced.

(** The length the comparator of [sort] reads. *)
Local Abbreviation scope_length ss := (String.length (scopeUrl ss)).

(** The order [sort] is to produce. *)
Definition shorter_or_equal (a b : ScriptByScope) : Prop :=
  scope_length a <= scope_length b.

(** The callback of [find]: the registration has the version's id. *)
Definition joins (version : Version.t) (r : Registration.t) : bool :=
  (Registration.registrationId r =? Version.registrationId version)%string.

(** The pairs one version adds to [scriptByScopeUrlList]: one pair when a
    registration has its id, none otherwise. *)
Definition contribution `{UrlShim} (registrations : list Registration.t)
    (version : Version.t) : completion (list ScriptByScope) :=
  match find (joins version) registrations with
  | Some matchedRegistration =>
      scope <- new_URL (Registration.scopeURL matchedRegistration) ;;
      script <- new_URL (Version.scriptURL version) ;;
      Normal [{| scopeUrl := href scope; scriptUrl := href script |}]
  | None => Normal []
  end.

(** The same pairs, as a list: empty where a URL constructor throws. *)
Definition pairs_of `{UrlShim} (registrations : list Registration.t)
    (version : Version.t) : list ScriptByScope :=
  match contribution registrations version with
  | Normal pairs => pairs
  | Throw _ => []
  end.

(** The six outcomes of the specification's error taxonomy. *)
Inductive Outcome : Type :=
| NoWorkerForOrigin
| PageOutOfScope
| ManifestMissing
| ManifestInvalid
| StartUrlOutOfScope
| Pass.

(** The outcome a verdict stands for, read off its score, its explanation
    and the presence of details; [None] for a verdict of no outcome. *)
Definition outcome_of (p : Product.t) : option Outcome :=
  match Product.score p, Product.explanation p, Product.details p with
  | 1, None, Some _ => Some Pass
  | 0, None, None => Some NoWorkerForOrigin
  | 0, Some m, None =>
      if (message m =? UIStrings.explanationOutOfScope)%string
      then Some PageOutOfScope else None
  | 0, Some m, Some _ =>
      if (message m =? UIStrings.explanationNoManifest)%string
      then Some ManifestMissing
      else if (message m =? UIStrings.explanationBadManifest)%string
      then Some ManifestInvalid
      else if (message m =? UIStrings.explanationBadStartUrl)%string
      then Some StartUrlOutOfScope
      else None
  | _, _, _ => None
  end.

(** The verdict of the branch 'no service worker on this origin'. *)
Definition no_worker_verdict : Product.t :=
  {| Product.score := 0;
     Product.explanation := None;
     Product.details := None |}.

(** The diagnostic data attached once a controlling worker is identified. *)
Definition details_of (ss : ScriptByScope) : DebugData.t :=
  {| DebugData.type := "debugdata";
     DebugData.scriptUrl := scriptUrl ss;
     DebugData.scopeUrl := scopeUrl ss |}.

(** ** A URL class to evaluate with

    A fragment of the platform's URL parser, for evaluating the audit on
    concrete artifacts: [scheme://host/path] with the scheme http or https
    in any case, a host of letters and dots in any case, and a path of
    letters, digits and [/ - _ .] in which no segment starts with a dot. On
    such a string the href has the scheme and the host in lower case and
    the path ["/"] where it was empty, as the platform gives it. Every other
    string is rejected: the platform too rejects a string with no scheme
    (the empty string, a relative reference), and those are the only
    rejected strings the development evaluates at. *)

Module Demo.

Definition in_range (lo hi : nat) (c : ascii) : bool :=
  let n := nat_of_ascii c in ((lo <=? n) && (n <=? hi))%nat.

Definition is_upper : ascii -> bool := in_range 65 90.
Definition is_lower : ascii -> bool := in_range 97 122.
Definition is_digit : ascii -> bool := in_range 48 57.

Definition to_lower (c : ascii) : ascii :=
  if is_upper c then ascii_of_nat (nat_of_ascii c + 32) else c.

Definition host_char (c : ascii) : bool :=
  is_upper c || is_lower c || (c =? ".")%char.

Definition path_char (c : ascii) : bool :=
  is_upper c || is_lower c || is_digit c
  || (c =? "/")%char || (c =? "-")%char || (c =? "_")%char || (c =? ".")%char.

Fixpoint lowercase (s : string) : string :=
  match s with
  | EmptyString => EmptyString
  | String c rest => String (to_lower c) (lowercase rest)
  end.

(** The longest prefix of characters satisfying [p], and the rest. *)
Fixpoint span (p : ascii -> bool) (s : string) : string * string :=
  match s with
  | EmptyString => (EmptyString, EmptyString)
  | String c rest =>
      if p c then let (taken, left) := span p rest in (String c taken, left)
      else (EmptyString, s)
  end.

(** Strip the lower-case prefix [p] from [s], whatever the case in [s]. *)
Fixpoint strip_ci (p s : string) : option string :=
  match p with
  | EmptyString => Some s
  | String c p' =>
      match s with
      | String d s' => if (to_lower d =? c)%char then strip_ci p' s' else None
      | EmptyString => None
      end
  end.

Definition starts_with_dot (s : string) : bool :=
  match s with
  | String c _ => (c =? ".")%char
  | EmptyString => false
  end.

(** Only path characters, and no segment that starts with a dot. *)
Fixpoint path_ok (s : string) : bool :=
  match s with
  | EmptyString => true
  | String c rest =>
      path_char c
      && negb ((c =? "/")%char && starts_with_dot rest)
      && path_ok rest
  end.

Definition starts_with_slash (s : string) : bool :=
  match s with
  | String c _ => (c =? "/")%char
  | EmptyString => false
  end.

Definition after_scheme (scheme rest : string) : option URL :=
  let (host, path) := span host_char rest in
  match host with
  | EmptyString => None
  | String _ _ =>
      if path_ok path
      then
        match path with
        | EmptyString =>
            Some {| href := scheme ++ lowercase host ++ "/";
                    origin := scheme ++ lowercase host |}
        | String _ _ =>
            if starts_with_slash path
            then Some {| href := scheme ++ lowercase host ++ path;
                         origin := scheme ++ lowercase host |}
            else None
        end
      else None
  end%string.

Definition parse (s : string) : option URL :=
  match strip_ci "http://" s with
  | Some rest => after_scheme "http://" rest
  | None =>
      match strip_ci "https://" s with
      | Some rest => after_scheme "https://" rest
      | None => None
      end
  end.

Definition url : UrlShim := {| URL_parse := parse |}.

(** *** Artifacts *)

Definition activated (script id : string) : Version.t :=
  {| Version.status := "activated";
     Version.scriptURL := script;
     Version.registrationId := id |}.

Definition registration (id scope : string) : Registration.t :=
  {| Registration.registrationId := id; Registration.scopeURL := scope |}.

Definition root_worker : Version.t := activated "https://example.com/sw.js" "1".
Definition app_worker : Version.t := activated "https://example.com/app/sw.js" "2".
Definition app_worker_v2 : Version.t :=
  activated "https://example.com/app/sw-v2.js" "5".
Definition foreign_worker : Version.t := activated "https://other.example/sw.js" "4".
Definition unjoined_worker : Version.t :=
  activated "https://example.com/lost.js" "9".

(** A version that is not activated; its script URL is relative. *)
Definition redundant_worker : Version.t :=
  {| Version.status := "redundant";
     Version.scriptURL := "/old.js";
     Version.registrationId := "3" |}.

(** An activated version whose script URL is a relative reference. *)
Definition relative_worker : Version.t := activated "/sw.js" "1".

Definition versions : list Version.t :=
  [redundant_worker; root_worker; foreign_worker; app_worker;
   unjoined_worker; app_worker_v2].

(** Registration "2" occurs twice; registration "5" has the scope of "2". *)
Definition registrations : list Registration.t :=
  [registration "1" "HTTPS://Example.COM";
   registration "2" "https://example.com/app/";
   registration "2" "https://example.com/app/page/deeper/";
   registration "5" "https://EXAMPLE.com/app/"].

Definition page : URL :=
  {| href := "https://example.com/app/page";
     origin := "https://example.com" |}.

Definition other_page : URL :=
  {| href := "https://example.com/shop/cart";
     origin := "https://example.com" |}.

Definition manifest (start : string) : option Manifest.t :=
  Some {| Manifest.value := Some {| ManifestValues.start_url := start |} |}.

Definition artifacts (final : string) (vs : list Version.t)
    (m : option Manifest.t) : Artifacts.t :=
  {| Artifacts.URL := {| Artifacts.finalUrl := final |};
     Artifacts.ServiceWorker :=
       {| Artifacts.versions := vs; Artifacts.registrations := registrations |};
     Artifacts.WebAppManifest := m |}.

Definition passing : Artifacts.t :=
  artifacts "https://example.com/app/page" versions
    (manifest "https://example.com/app/index.html").

(** The manifest's start_url is in scope once normalized, not as written. *)
Definition shouting_start_url : Artifacts.t :=
  artifacts "https://example.com/app/page" versions
    (manifest "HTTPS://EXAMPLE.COM/app/index.html").

Definition with_relative_script : Artifacts.t :=
  artifacts "https://example.com/app/page" (relative_worker :: versions)
    (manifest "https://example.com/app/index.html").

End Demo.

(** ** The service-worker registration helper: [isLocalhost]

    [isLocalhost] tests [window.location.hostname] against 'localhost',
    '[::1]' and a regular expression. The expression is kept as syntax and
    run by a backtracking matcher, as the engine runs it. *)

Module RegExp.

(** An item of a character class: one character, or a range [lo-hi]. *)
Inductive class_item : Type :=
| Single (c : ascii)
| Span (lo hi : ascii).

Inductive t : Type :=
| Chr (c : ascii)
| Class (items : list class_item)
| Seq (r1 r2 : t)
| Alt (r1 r2 : t)
| Opt (r : t)
| Times (n : nat) (r : t).

Definition in_item (c : ascii) (i : class_item) : bool :=
  match i with
  | Single d => (c =? d)%char
  | Span lo hi =>
      ((nat_of_ascii lo <=? nat_of_ascii c)
       && (nat_of_ascii c <=? nat_of_ascii hi))%nat
  end.

Definition in_class (c : ascii) (items : list class_item) : bool :=
  existsb (in_item c) items.

(** [run r s k]: the ways [r] matches a prefix of [s] are tried in the
    order of the engine (the left alternative first, an optional part
    present first) until the continuation [k] accepts the rest. *)
Fixpoint run (r : t) (s : string) (k : string -> bool) : bool :=
  match r with
  | Chr c =>
      match s with
      | String d rest => (d =? c)%char && k rest
      | EmptyString => false
      end
  | Class items =>
      match s with
      | String d rest => in_class d items && k rest
      | EmptyString => false
      end
  | Seq r1 r2 => run r1 s (fun rest => run r2 rest k)
  | Alt r1 r2 => run r1 s k || run r2 s k
  | Opt r1 => run r1 s k || k s
  | Times n r1 =>
      (fix times (n : nat) (s : string) : bool :=
         match n with
         | O => k s
         | S n' => run r1 s (times n')
         end) n s
  end.

Definition at_end (s : string) : bool :=
  match s with
  | EmptyString => true
  | String _ _ => false
  end.

(** [/^r$/.test(s)], and the truthiness of [s.match(/^r$/)]. *)
Definition test_anchored (r : t) (s : string) : bool := run r s at_end.

(** The strings of the language of an expression. *)
Inductive matches : t -> string -> Prop :=
| m_Chr c : matches (Chr c) (String c EmptyString)
| m_Class c items :
    in_class c items = true -> matches (Class items) (String c EmptyString)
| m_Seq r1 r2 s1 s2 :
    matches r1 s1 -> matches r2 s2 -> matches (Seq r1 r2) (s1 ++ s2)
| m_Alt_l r1 r2 s : matches r1 s -> matches (Alt r1 r2) s
| m_Alt_r r1 r2 s : matches r2 s -> matches (Alt r1 r2) s
| m_Opt_some r s : matches r s -> matches (Opt r) s
| m_Opt_none r : matches (Opt r) EmptyString
| m_Times_O r : matches (Times 0 r) EmptyString
| m_Times_S n r s1 s2 :
    matches r s1 -> matches (Times n r) s2 ->
    matches (Times (S n) r) (s1 ++ s2).

End RegExp.

Module Localhost.

Import RegExp.

(** [25[0-5]|2[0-4][0-9]|[01]?[0-9][0-9]?] *)
Definition octet : RegExp.t :=
  Alt (Seq (Chr "2") (Seq (Chr "5") (Class [Span "0" "5"])))
    (Alt (Seq (Chr "2") (Seq (Class [Span "0" "4"]) (Class [Span "0" "9"])))
       (Seq (Opt (Class [Single "0"; Single "1"]))
          (Seq (Class [Span "0" "9"]) (Opt (Class [Span "0" "9"]))))).

(** [127(?:\.(?:octet)){3}], between ^ and $. *)
Definition loopback : RegExp.t :=
  Seq (Chr "1") (Seq (Chr "2") (Seq (Chr "7")
    (Times 3 (Seq (Chr ".") octet)))).

Definition isLocalhost (hostname : string) : bool :=
  (hostname =? "localhost")%string
  || (hostname =? "[::1]")%string
  || test_anchored loopback hostname.

(** The number a string of decimal digits denotes. *)
Fixpoint decimal_from (acc : nat) (s : string) : nat :=
  match s with
  | EmptyString => acc
  | String c rest => decimal_from (10 * acc + (nat_of_ascii c - 48)) rest
  end.

Definition decimal (s : string) : nat := decimal_from 0 s.

Fixpoint all_digits (s : string) : bool :=
  match s with
  | EmptyString => true
  | String c rest =>
      ((48 <=? nat_of_ascii c) && (nat_of_ascii c <=? 57))%nat
      && all_digits rest
  end.

(** One to three decimal digits that denote a number up to 255. *)
Definition octet_text (s : string) : bool :=
  ((1 <=? String.length s) && (String.length s <=? 3))%nat
  && all_digits s
  && (decimal s <=? 255)%nat.

End Localhost.

(** ** The registration helper: [checkValidServiceWorker]

    The function fetches the worker script and continues in the callbacks
    of the promise. The outcome of the fetch is an argument of the model,
    and the result names the continuation the callbacks take. *)

Module Helper.

(** [String.prototype.indexOf]: the index of the first occurrence of [p]
    in [s], or -1. *)
Fixpoint indexOf (s p : string) : Z :=
  if startsWith s p then 0%Z
  else
    match s with
    | EmptyString => (-1)%Z
    | String _ rest =>
        let i := indexOf rest p in
        if (i =? -1)%Z then (-1)%Z else (i + 1)%Z
    end.

(** What the callback reads of the response: [response.status] and
    [response.headers.get('content-type')], [null] when there is none. *)
Record Response : Type :=
  { status : nat; content_type : option string }.

Inductive Continuation (Config : Type) : Type :=
| UnregisterAndReload
    (* navigator.serviceWorker.ready.then(registration =>
         registration.unregister().then(() => window.location.reload())) *)
| RegisterValidSW (swUrl : string) (config : Config)
    (* registerValidSW(swUrl, config) *)
| LogOffline.
    (* console.log('No internet connection found. ...') *)

Arguments UnregisterAndReload {Config}.
Arguments RegisterValidSW {Config} swUrl config.
Arguments LogOffline {Config}.

(** [fetched] is the response the fetch resolves with, [None] when the
    fetch rejects. *)
Definition checkValidServiceWorker {Config : Type} (swUrl : string)
    (config : Config) (fetched : option Response) : Continuation Config :=
  match fetched with
  | Some response =>
      let contentType := content_type response in
      if (status response =? 404)%nat
         || match contentType with
            | Some text => (indexOf text "javascript" =? -1)%Z
            | None => false
            end
      then UnregisterAndReload
      else RegisterValidSW swUrl config
  | None => LogOffline
  end.

End Helper.

(** ** The pages: event handlers

    An event handler is modelled by the effects it has on its surroundings,
    in order: the mutations it sends, the state setters it calls, what it
    logs, where it navigates. What an awaited promise settles to is an
    argument of the model. *)

Module Async.

(** What an awaited promise settles to. *)
Inductive Settled (A : Type) : Type :=
| Fulfilled (value : A)
| Rejected (reason : string).

Arguments Fulfilled {A} value.
Arguments Rejected {A} reason.

(** A run of a handler body: its effects so far, and its value or the
    error thrown. *)
Definition run (E A : Type) : Type := (list E * (A + string))%type.

Definition ret {E A : Type} (a : A) : run E A := ([], inl a).

Definition throw {E A : Type} (reason : string) : run E A := ([], inr reason).

Definition tell {E : Type} (e : E) : run E unit := ([e], inl tt).

Definition bind {E A B : Type} (c : run E A) (k : A -> run E B) : run E B :=
  match c with
  | (effects, inl a) => let (effects', r) := k a in (effects ++ effects', r)
  | (effects, inr reason) => (effects, inr reason)
  end.

(** [await call]: the call is an effect; the promise it returns settles. *)
Definition await {E A : Type} (call : E) (settled : Settled A) : run E A :=
  match settled with
  | Fulfilled value => ([call], inl value)
  | Rejected reason => ([call], inr reason)
  end.

(** [try { body } catch (e) { handler(e) }] *)
Definition try_catch {E A : Type} (body : run E A)
    (handler : string -> run E A) : run E A :=
  match body with
  | (effects, inl a) => (effects, inl a)
  | (effects, inr reason) =>
      let (effects', r) := handler reason in (effects ++ effects', r)
  end.

(** [if (b) { body }] *)
Definition when {E : Type} (b : bool) (body : run E unit) : run E unit :=
  if b then body else ret tt.

Definition effects {E A : Type} (c : run E A) : list E := fst c.

End Async.

Declare Scope async_scope.
Delimit Scope async_scope with async.
Notation "x <~ c ;; k" := (Async.bind c (fun x => k))
  (at level 61, c at next level, right associativity) : async_scope.
Notation "c ;;; k" := (Async.bind c (fun _ => k))
  (at level 61, right associativity) : async_scope.

(** *** SingleDog *)

Module SingleDog.

(** What a mutation resolves with; the handler only logs it. *)
Record MutationResult : Type :=
  { error : option string; data : option string }.

Inductive Event : Type :=
| AddWalk (canineId : string)
| AddPotty (canineId : string)
| LogResult (label : string) (result : MutationResult)
| LogError (reason : string)
| Log (text : string)
| SetLocation (url : string)
| SetDogPotty (checked : bool)
| SetDogWalk (checked : bool).

Local Open Scope async_scope.

Definition handleFormSubmit (dogWalk dogPotty : bool) (canine_id : string)
    (addWalk addPotty : Async.Settled MutationResult)
  : Async.run Event unit :=
  Async.try_catch
    (Async.when dogWalk
       (result <~ Async.await (AddWalk canine_id) addWalk ;;
        Async.tell (LogResult "!!! Walk" result)) ;;;
     Async.when dogPotty
       (result <~ Async.await (AddPotty canine_id) addPotty ;;
        Async.tell (LogResult "!!! Potty: " result)) ;;;
     Async.tell (SetLocation "/dashboard"))
    (fun error => Async.tell (LogError error)).

(** The [disabled] attribute of the Submit button. *)
Definition submit_disabled (dogWalk dogPotty : bool) : bool :=
  negb dogWalk && negb dogPotty.

(** An entry of [dogData.potty] or [dogData.walk]; [username] is [None]
    for [null]. *)
Record Entry : Type := { username : option string; timestamp : string }.

Definition truthy (s : option string) : bool :=
  match s with
  | Some EmptyString => false
  | Some (String _ _) => true
  | None => false
  end.

Record DogData : Type :=
  { potty : option (list Entry); walk : option (list Entry) }.

Section Effect.

(** '../utils/helpers.js' is not part of the sources: the two helpers are
    parameters. [isToday ts] stands for
    [allHelpers.isToday(new Date(Number(ts)))] and [isPM ts] for
    [allHelpers.isPM(new Date(Number(ts)))]. *)
Variables isToday isPM : string -> bool.

Definition this_afternoon (p : Entry) : bool :=
  truthy (username p) && isToday (timestamp p) && isPM (timestamp p).

(** The effect that runs when [dogData] changes. *)
Definition dogData_effect (dogData : DogData) : list Event :=
  match potty dogData with
  | Some entries =>
      flat_map (fun p => if this_afternoon p
                         then [Log "Yes potty!"; SetDogPotty true]
                         else [Log "No potty!"]) entries
  | None => []
  end
  ++ match walk dogData with
     | Some entries =>
         flat_map (fun p => if this_afternoon p
                            then [Log "Yes walk!"; SetDogWalk true]
                            else [Log "No walk!"]) entries
     | None => []
     end.

End Effect.

(** The two checkboxes, and what the queued state updates make of them. *)
Record Checked : Type := { dogPotty : bool; dogWalk : bool }.

Definition update (st : Checked) (e : Event) : Checked :=
  match e with
  | SetDogPotty b => {| dogPotty := b; dogWalk := dogWalk st |}
  | SetDogWalk b => {| dogPotty := dogPotty st; dogWalk := b |}
  | _ => st
  end.

Definition after (st : Checked) (events : list Event) : Checked :=
  fold_left update events st.

End SingleDog.

(** *** Login *)

Module Login.

(** An object with string values, as the list of its own properties. *)
Definition object : Type := list (string * string).

(** [o[key]]; [None] is [undefined]. *)
Fixpoint get (o : object) (key : string) : option string :=
  match o with
  | [] => None
  | (k, v) :: rest => if (k =? key)%string then Some v else get rest key
  end.

(** [{...o, [key]: value}]: the property is overwritten where [o] has it,
    added after the others where it has not. *)
Fixpoint set (o : object) (key value : string) : object :=
  match o with
  | [] => [(key, value)]
  | (k, v) :: rest =>
      if (k =? key)%string then (k, value) :: rest
      else (k, v) :: set rest key value
  end.

(** [useState({ email: '', password: '' })] *)
Definition initial : object :=
  [("email", EmptyString); ("password", EmptyString)].

(** [event.target] of a change event. *)
Record Target : Type := { name : string; value : string }.

(** The state [handleChange] sets. *)
Definition handleChange (formState : object) (target : Target) : object :=
  set formState (name target) (value target).

(** What the login mutation resolves with. *)
Record User : Type := { isAdmin : bool }.
Record Payload : Type := { user : option User; token : option string }.
Record Data : Type := { login : option Payload }.
Record Response : Type := { data : option Data }.

Inductive Event : Type :=
| PreventDefault
| LoginMutation (email password : option string)
| SetIsAdmin (isAdmin : bool)
| AuthLogin (token : option string)
| HistoryPush (path : string)
| LogError (reason : string).

Local Open Scope async_scope.

(** Reading a property of [null] or [undefined] throws a TypeError. *)
Definition property {A : Type} (o : option A) : Async.run Event A :=
  match o with
  | Some a => Async.ret a
  | None => Async.throw "TypeError"
  end.

Definition handleFormSubmit (formState : object)
    (login_settled : Async.Settled Response) : Async.run Event unit :=
  Async.tell PreventDefault ;;;
  Async.try_catch
    (mutationResponse <~
       Async.await (LoginMutation (get formState "email")
                                  (get formState "password"))
                   login_settled ;;
     d <~ property (data mutationResponse) ;;
     l <~ property (login d) ;;
     u <~ property (user l) ;;
     Async.tell (SetIsAdmin (isAdmin u)) ;;;
     Async.tell (AuthLogin (token l)) ;;;
     Async.tell (HistoryPush "/"))
    (fun e => Async.tell (LogError e)).

(** The value of the last change event of the field [key], if any. *)
Definition typed (key : string) (events : list Target) : option string :=
  fold_left (fun acc target =>
               if (name target =? key)%string then Some (value target)
               else acc)
            events None.

End Login.

(** *** The registration helper: [registerValidSW]

    The handlers [registerValidSW] installs read the browser when their
    event fires; what they read is an argument of the model. *)

Module Registering.

Section Callbacks.

(** The functions a caller passes in [config]. *)
Variable Callback : Type.

(** [config] with its optional [onUpdate] and [onSuccess]. *)
Record Config : Type :=
  { onUpdate : option Callback; onSuccess : option Callback }.

Inductive Effect : Type :=
| Log (text : string)
| Call (callback : Callback).  (* callback(registration) *)

(** [config && config.onUpdate], then the call. *)
Definition call_if_present (config : option Config)
    (field : Config -> option Callback) : list Effect :=
  match config with
  | Some c =>
      match field c with
      | Some callback => [Call callback]
      | None => []
      end
  | None => []
  end.

(** [installingWorker.onstatechange]: [state] is [installingWorker.state]
    and [controller] tells whether [navigator.serviceWorker.controller] is
    set, both read when the event fires. *)
Definition onstatechange (config : option Config) (state : string)
    (controller : bool) : list Effect :=
  if (state =? "installed")%string then
    if controller then
      Log "New content is available and will be used when all tabs for this page are closed."
      :: call_if_present config onUpdate
    else
      Log "Content is cached for offline use."
      :: call_if_present config onSuccess
  else [].

(** [registration.onupdatefound]: [installing] tells whether
    [registration.installing] is set when the event fires; the result is
    the handler installed on the worker, if any. *)
Definition onupdatefound (config : option Config) (installing : bool)
  : option (string -> bool -> list Effect) :=
  if installing then Some (onstatechange config) else None.

End Callbacks.

End Registering.

(** A rejected walk mutation: the potty mutation is not sent and the page
    stays. *)
Example SingleDog_walk_rejected :
  SingleDog.handleFormSubmit true true "7" (Async.Rejected "Network error")
    (Async.Fulfilled {| SingleDog.error := None; SingleDog.data := None |})
  = ([SingleDog.AddWalk "7"; SingleDog.LogError "Network error"], inl tt).
Proof. reflexivity. Qed.

Example SingleDog_both_fulfilled :
  Async.effects
    (SingleDog.handleFormSubmit true true "7"
       (Async.Fulfilled {| SingleDog.error := None;
                           SingleDog.data := Some "walk" |})
       (Async.Fulfilled {| SingleDog.error := None;
                           SingleDog.data := Some "potty" |}))
  = [SingleDog.AddWalk "7";
     SingleDog.LogResult "!!! Walk"
       {| SingleDog.error := None; SingleDog.data := Some "walk" |};
     SingleDog.AddPotty "7";
     SingleDog.LogResult "!!! Potty: "
       {| SingleDog.error := None; SingleDog.data := Some "potty" |};
     SingleDog.SetLocation "/dashboard"].
Proof. reflexivity. Qed.

(** A change event of a name the state does not have adds a property. *)
Example Login_change_other_name :
  Login.handleChange Login.initial
    {| Login.name := "remember"; Login.value := "on" |}
  = [("email", EmptyString); ("password", EmptyString); ("remember", "on")].
Proof. reflexivity. Qed.

(** A response without [data.login]: the error is logged, nothing else. *)
Example Login_no_login_in_response :
  Async.effects
    (Login.handleFormSubmit
       [("email", "a@b.c"); ("password", "secret")]
       (Async.Fulfilled
          {| Login.data := Some {| Login.login := None |} |}))
  = [Login.PreventDefault;
     Login.LoginMutation (Some "a@b.c") (Some "secret");
     Login.LogError "TypeError"].
Proof. reflexivity. Qed.

Example indexOf_found :
  Helper.indexOf "application/javascript; charset=utf-8" "javascript" = 12%Z.
Proof. reflexivity. Qed.

Example indexOf_not_found : Helper.indexOf "text/html" "javascript" = (-1)%Z.
Proof. reflexivity. Qed.

Example indexOf_is_case_sensitive :
  Helper.indexOf "text/JavaScript" "javascript" = (-1)%Z.
Proof. reflexivity. Qed.

Example isLocalhost_loopback : Localhost.isLocalhost "127.0.0.1" = true.
Proof. reflexivity. Qed.

Example isLocalhost_leading_zeros : Localhost.isLocalhost "127.000.01.1" = true.
Proof. reflexivity. Qed.

Example isLocalhost_out_of_range : Localhost.isLocalhost "127.0.0.256" = false.
Proof. reflexivity. Qed.

Example isLocalhost_other_network : Localhost.isLocalhost "128.0.0.1" = false.
Proof. reflexivity. Qed.

Example isLocalhost_upper_case : Localhost.isLocalhost "LOCALHOST" = false.
Proof. reflexivity. Qed.

Example demo_parse_shouting :
  @URL_parse Demo.url "HTTPS://Example.COM"
  = Some {| href := "https://example.com/"; origin := "https://example.com" |}.
Proof. reflexivity. Qed.

Example demo_parse_relative : @URL_parse Demo.url "/sw.js" = None.
Proof. reflexivity. Qed.

Example demo_filter :
  @getVersionsForOrigin Demo.url Demo.versions Demo.page
  = Normal [Demo.root_worker; Demo.app_worker; Demo.unjoined_worker;
            Demo.app_worker_v2].
Proof. reflexivity. Qed.

Example demo_resolver :
  @getControllingServiceWorker Demo.url
    [Demo.root_worker; Demo.app_worker; Demo.unjoined_worker;
     Demo.app_worker_v2] Demo.registrations Demo.page
  = Normal (Some {| scopeUrl := "https://example.com/app/";
                    scriptUrl := "https://example.com/app/sw-v2.js" |}).
Proof. reflexivity. Qed.

Example demo_audit_passing :
  @audit Demo.url Demo.passing
  = Normal {| Product.score := 1;
              Product.explanation := None;
              Product.details :=
                Some {| DebugData.type := "debugdata";
                        DebugData.scriptUrl := "https://example.com/app/sw-v2.js";
                        DebugData.scopeUrl := "https://example.com/app/" |} |}.
Proof. reflexivity. Qed.


(** ** Completions *)

Lemma bind_Normal_inv {A B : Type} (c : completion A)
    (k : A -> completion B) (b : B) :
  bind c k = Normal b -> exists a, c = Normal a /\ k a = Normal b.
Proof.
  destruct c as [a | e]; simpl; intros E.
  - exists a. split; [reflexivity | exact E].
  - discriminate E.
Qed.

Lemma new_URL_Normal `{UrlShim} (s : string) (u : URL) :
  new_URL s = Normal u <-> URL_parse s = Some u.
Proof.
  unfold new_URL. destruct (URL_parse s) as [u' |]; split; intros E;
    try discriminate E; inversion E; reflexivity.
Qed.

Lemma new_URL_parses `{UrlShim} (s : string) :
  URL_parse s <> None -> exists u, URL_parse s = Some u /\ new_URL s = Normal u.
Proof.
  unfold new_URL. destruct (URL_parse s) as [u |]; intros N.
  - exists u. split; reflexivity.
  - contradiction N. reflexivity.
Qed.

(** ** Strings *)

Lemma startsWith_spec (s p : string) :
  startsWith s p = true <-> exists rest, s = (p ++ rest)%string.
Proof.
  unfold startsWith. revert s.
  induction p as [| c p IH]; intros s.
  - split; [intros _ | intros _; destruct s; reflexivity].
    exists s. reflexivity.
  - destruct s as [| d s]; simpl.
    + split; [discriminate | intros [rest E]; discriminate E].
    + destruct (ascii_dec c d) as [-> | N].
      * rewrite IH. split; intros [rest E]; exists rest.
        -- rewrite E. reflexivity.
        -- inversion E. reflexivity.
      * split; [discriminate | intros [rest E]]. congruence.
Qed.

(** Two prefixes of one string that have the same length are equal: the
    candidates that tie on scope length have the same scope and differ in
    their script only. *)
Lemma prefixes_of_equal_length (s p q : string) :
  startsWith s p = true -> startsWith s q = true ->
  String.length p = String.length q -> p = q.
Proof.
  revert s q. induction p as [| c p IH]; intros s q Hp Hq L.
  - destruct q; [reflexivity | discriminate L].
  - destruct q as [| d q]; [discriminate L |].
    apply startsWith_spec in Hp, Hq. destruct Hp as [r1 E1], Hq as [r2 E2].
    rewrite E1 in E2. simpl in E2. inversion E2; subst d.
    f_equal. apply (IH (p ++ r1)%string).
    + apply startsWith_spec. now exists r1.
    + apply startsWith_spec. exists r2. assumption.
    + simpl in L. lia.
Qed.

(** ** Arrays: [pop], [sort] and [filter] *)

Section Arrays.

Variable A : Type.

Lemma pop_app_last (l : list A) (x : A) : pop (l ++ [x]) = Some x.
Proof.
  induction l as [| y l IH]; [reflexivity |].
  simpl. rewrite IH. destruct (l ++ [x]) eqn:E; [| reflexivity].
  destruct l; discriminate E.
Qed.

Lemma pop_None (l : list A) : pop l = None <-> l = [].
Proof.
  split; [| intros ->; reflexivity].
  destruct l as [| x l] using rev_ind; [reflexivity |].
  rewrite pop_app_last. discriminate.
Qed.

Lemma pop_Some (l : list A) (x : A) :
  pop l = Some x <-> exists front, l = front ++ [x].
Proof.
  split.
  - destruct l as [| y l _] using rev_ind; [discriminate |].
    rewrite pop_app_last. intros E. inversion E. now exists l.
  - intros [front ->]. apply pop_app_last.
Qed.

Lemma pop_In (l : list A) (x : A) : pop l = Some x -> In x l.
Proof.
  intros E. apply pop_Some in E. destruct E as [front ->].
  apply in_or_app. right. left. reflexivity.
Qed.

Lemma pop_cons (y : A) (l : list A) (x : A) :
  pop l = Some x -> pop (y :: l) = Some x.
Proof. destruct l; [discriminate | intros E; exact E]. Qed.

Variable cmp : A -> A -> Z.

Lemma sort_insert_perm (x : A) (l : list A) :
  Permutation (sort_insert cmp x l) (x :: l).
Proof.
  induction l as [| y l IH]; simpl; [reflexivity |].
  destruct (cmp x y <=? 0)%Z; [reflexivity |].
  rewrite IH. apply perm_swap.
Qed.

Lemma sort_perm (l : list A) : Permutation (sort cmp l) l.
Proof.
  induction l as [| x l IH]; simpl; [reflexivity |].
  rewrite sort_insert_perm. now constructor.
Qed.

Lemma sort_In (l : list A) (x : A) : In x (sort cmp l) <-> In x l.
Proof.
  split; apply Permutation_in; [| symmetry]; apply sort_perm.
Qed.

(** An element that compares above every element of the array goes last. *)
Lemma sort_insert_last (x : A) (l : list A) :
  Forall (fun y => (0 < cmp x y)%Z) l -> sort_insert cmp x l = l ++ [x].
Proof.
  induction 1 as [| y l Hy _ IH]; simpl; [reflexivity |].
  destruct (Z.leb_spec (cmp x y) 0) as [L | _]; [lia |].
  now rewrite IH.
Qed.

(** An element that does not compare above the last one leaves it last. *)
Lemma pop_sort_insert_keep (x m : A) (l : list A) :
  pop l = Some m -> (cmp x m <= 0)%Z -> pop (sort_insert cmp x l) = Some m.
Proof.
  induction l as [| y l IH]; intros P L; [discriminate P |].
  simpl sort_insert. destruct (Z.leb_spec (cmp x y) 0) as [_ | G].
  - apply pop_cons. exact P.
  - destruct l as [| z l].
    + simpl in P. inversion P; subst y. lia.
    + apply pop_cons. apply IH; [exact P | exact L].
Qed.

End Arrays.

Lemma filter_c_Normal {A : Type} (f : A -> completion bool) (g : A -> bool)
    (l : list A) :
  (forall x, In x l -> f x = Normal (g x)) ->
  filter_c f l = Normal (filter g l).
Proof.
  induction l as [| x l IH]; intros H; [reflexivity |].
  simpl. rewrite (H x (or_introl eq_refl)). simpl.
  rewrite IH by (intros y Hy; apply H; now right). reflexivity.
Qed.

Lemma filter_c_Throw {A : Type} (f : A -> completion bool) (l : list A)
    (x : A) (e : JsError) :
  In x l -> f x = Throw e -> exists e', filter_c f l = Throw e'.
Proof.
  induction l as [| y l IH]; intros I T; [contradiction I |].
  simpl. destruct I as [-> | I].
  - rewrite T. now exists e.
  - destruct (f y) as [b | e1]; simpl; [| now exists e1].
    destruct (IH I T) as [e' ->]. now exists e'.
Qed.

(** ** Sorting by scope length *)


Lemma by_scope_length_le (a b : ScriptByScope) :
  (by_scope_length a b <= 0)%Z <-> scope_length a <= scope_length b.
Proof. unfold by_scope_length. lia. Qed.

Lemma by_scope_length_gt (a b : ScriptByScope) :
  (0 < by_scope_length a b)%Z <-> scope_length b < scope_length a.
Proof. unfold by_scope_length. lia. Qed.

Lemma sort_insert_sorted (x : ScriptByScope) (l : list ScriptByScope) :
  Sorted shorter_or_equal l ->
  Sorted shorter_or_equal (sort_insert by_scope_length x l).
Proof.
  induction 1 as [| y l S IH Hd]; simpl.
  - repeat constructor.
  - destruct (Z.leb_spec (by_scope_length x y) 0) as [L | G].
    + apply by_scope_length_le in L. repeat constructor; assumption.
    + apply by_scope_length_gt in G. constructor; [exact IH |].
      destruct Hd as [| z l Hz]; simpl.
      * constructor. unfold shorter_or_equal. lia.
      * destruct (by_scope_length x z <=? 0)%Z; constructor;
          [unfold shorter_or_equal; lia | exact Hz].
Qed.

(** The result of [sort] is in ascending order of scope length ... *)
Lemma sort_sorted (l : list ScriptByScope) :
  Sorted shorter_or_equal (sort by_scope_length l).
Proof.
  induction l as [| x l IH]; simpl; [constructor |].
  now apply sort_insert_sorted.
Qed.

Lemma sort_insert_stable (n : nat) (x : ScriptByScope)
    (l : list ScriptByScope) :
  filter (fun ss => scope_length ss =? n)%nat (sort_insert by_scope_length x l)
  = filter (fun ss => scope_length ss =? n)%nat (x :: l).
Proof.
  induction l as [| y l IH]; [reflexivity |].
  simpl sort_insert.
  destruct (Z.leb_spec (by_scope_length x y) 0) as [_ | G]; [reflexivity |].
  apply by_scope_length_gt in G.
  cbn [filter] in *. rewrite IH.
  destruct (Nat.eqb_spec (scope_length y) n) as [Ey | Ny];
    destruct (Nat.eqb_spec (scope_length x) n) as [Ex | Nx];
    try reflexivity; lia.
Qed.

(** ... and keeps the candidates of one length in their order: it is the
    stable sort by scope length. *)
Lemma sort_stable (n : nat) (l : list ScriptByScope) :
  filter (fun ss => scope_length ss =? n)%nat (sort by_scope_length l)
  = filter (fun ss => scope_length ss =? n)%nat l.
Proof.
  induction l as [| x l IH]; [reflexivity |].
  simpl sort. rewrite sort_insert_stable. cbn [filter]. now rewrite IH.
Qed.

(** What [sort] then [pop] selects from a non-empty array: the last of the
    elements of greatest scope length. *)
Lemma pop_sort_last_longest (l : list ScriptByScope) :
  l <> [] ->
  exists ss front back,
    pop (sort by_scope_length l) = Some ss
    /\ l = front ++ ss :: back
    /\ Forall (fun c => scope_length c <= scope_length ss) front
    /\ Forall (fun c => scope_length c < scope_length ss) back.
Proof.
  induction l as [| x l IH]; intros N; [contradiction N; reflexivity |].
  destruct l as [| y l].
  - exists x, [], []. repeat split; constructor.
  - destruct IH as (m & front & back & P & E & F & B); [discriminate |].
    destruct (le_lt_dec (scope_length x) (scope_length m)) as [L | G].
    + exists m, (x :: front), back. repeat split.
      * cbn [sort]. apply pop_sort_insert_keep; [exact P |].
        now apply by_scope_length_le.
      * rewrite E. reflexivity.
      * constructor; assumption.
      * exact B.
    + exists x, [], (y :: l). repeat split; [| constructor |].
      * change (sort by_scope_length (x :: y :: l))
          with (sort_insert by_scope_length x (sort by_scope_length (y :: l))).
        rewrite sort_insert_last; [apply pop_app_last |].
        apply Forall_forall. intros c Hc. apply by_scope_length_gt.
        apply sort_In in Hc. rewrite E in Hc.
        apply in_app_or in Hc. destruct Hc as [Hc | [<- | Hc]].
        -- rewrite Forall_forall in F. specialize (F c Hc). lia.
        -- exact G.
        -- rewrite Forall_forall in B. specialize (B c Hc). lia.
      * rewrite E. apply Forall_forall. intros c Hc.
        apply in_app_or in Hc. destruct Hc as [Hc | [<- | Hc]].
        -- rewrite Forall_forall in F. specialize (F c Hc). lia.
        -- exact G.
        -- rewrite Forall_forall in B. specialize (B c Hc). lia.
Qed.

(** ** The loop over the candidate versions *)

Section Populate.

Context {U : UrlShim}.

Lemma find_first {A : Type} (f : A -> bool) (before after : list A) (x : A) :
  Forall (fun y => f y = false) before -> f x = true ->
  find f (before ++ x :: after) = Some x.
Proof.
  induction 1 as [| y before Hy _ IH]; intros Hx; simpl.
  - now rewrite Hx.
  - rewrite Hy. now apply IH.
Qed.

Lemma find_none {A : Type} (f : A -> bool) (l : list A) :
  Forall (fun y => f y = false) l -> find f l = None.
Proof.
  induction 1 as [| y l Hy _ IH]; simpl; [reflexivity |].
  now rewrite Hy.
Qed.

(** The array only grows: what the loop returns extends what it was given. *)
Lemma populate_extends (versions : list Version.t)
    (registrations : list Registration.t) :
  forall acc l, populate versions registrations acc = Normal l ->
    exists added, l = acc ++ added
      /\ Forall (fun ss => exists s u, URL_parse s = Some u
                                       /\ scopeUrl ss = href u) added.
Proof.
  induction versions as [| v versions IH]; intros acc l E; simpl in E.
  - inversion E. exists []. split; [now rewrite app_nil_r | constructor].
  - destruct (find _ registrations) as [r |].
    + apply bind_Normal_inv in E. destruct E as (scope & Es & E).
      apply bind_Normal_inv in E. destruct E as (script & Ec & E).
      apply IH in E. destruct E as (added & -> & F).
      eexists. rewrite <- app_assoc. split; [reflexivity |].
      simpl. constructor; [| exact F].
      apply new_URL_Normal in Es. simpl. eauto.
    + now apply IH.
Qed.

(** The loop returns when the URLs it constructs are URLs. *)
Lemma populate_returns (versions : list Version.t)
    (registrations : list Registration.t) :
  (forall v, In v versions -> URL_parse (Version.scriptURL v) <> None) ->
  (forall v r, In v versions -> find (joins v) registrations = Some r ->
               URL_parse (Registration.scopeURL r) <> None) ->
  forall acc, returns (populate versions registrations acc).
Proof.
  induction versions as [| v versions IH]; intros Hs Hr acc; simpl.
  - now exists acc.
  - fold (joins v). destruct (find (joins v) registrations) as [r |] eqn:F.
    + destruct (new_URL_parses _ (Hr v r (or_introl eq_refl) F)) as (sc & _ & ->).
      destruct (new_URL_parses _ (Hs v (or_introl eq_refl))) as (sr & _ & ->).
      simpl. apply IH; intros; [apply Hs | eapply Hr]; eauto; now right.
    + apply IH; intros; [apply Hs | eapply Hr]; eauto; now right.
Qed.

End Populate.

(** ** The URL class used for evaluation has the fixed-point property *)

Lemma demo_to_lower_idempotent (c : ascii) :
  Demo.to_lower (Demo.to_lower c) = Demo.to_lower c.
Proof. destruct c as [[] [] [] [] [] [] [] []]; reflexivity. Qed.

Lemma demo_host_char_to_lower (c : ascii) :
  Demo.host_char c = true -> Demo.host_char (Demo.to_lower c) = true.
Proof. destruct c as [[] [] [] [] [] [] [] []]; intros E; exact E || reflexivity. Qed.

Lemma demo_slash_not_host_char (c : ascii) :
  (c =? "/")%char = true -> Demo.host_char c = false.
Proof. intros E. apply Ascii.eqb_eq in E. subst c. reflexivity. Qed.

Lemma demo_lowercase_idempotent (s : string) :
  Demo.lowercase (Demo.lowercase s) = Demo.lowercase s.
Proof.
  induction s as [| c s IH]; simpl; [reflexivity |].
  now rewrite demo_to_lower_idempotent, IH.
Qed.

Lemma demo_span_slash (p : string) :
  Demo.starts_with_slash p = true ->
  Demo.span Demo.host_char p = (EmptyString, p).
Proof.
  destruct p as [| c p]; simpl; [discriminate |].
  intros E. now rewrite (demo_slash_not_host_char _ E).
Qed.

(** A lower-cased host followed by a path is split again where it was. *)
Lemma demo_span_host (s : string) :
  forall host left, Demo.span Demo.host_char s = (host, left) ->
  forall p, Demo.starts_with_slash p = true ->
    Demo.span Demo.host_char (Demo.lowercase host ++ p)%string
    = (Demo.lowercase host, p).
Proof.
  induction s as [| c s IH]; intros host left E p Hp; simpl in E.
  - inversion E. simpl. now apply demo_span_slash.
  - destruct (Demo.host_char c) eqn:Hc.
    + destruct (Demo.span Demo.host_char s) as [taken left'].
      inversion E; subst host left. simpl.
      rewrite (demo_host_char_to_lower _ Hc).
      now rewrite (IH taken left' eq_refl p Hp).
    + inversion E. simpl. now apply demo_span_slash.
Qed.

Lemma demo_after_scheme_fixed (scheme rest : string) (u : URL) :
  Demo.after_scheme scheme rest = Some u ->
  exists tail,
    href u = (scheme ++ tail)%string
    /\ Demo.after_scheme scheme tail = Some u.
Proof.
  unfold Demo.after_scheme.
  destruct (Demo.span Demo.host_char rest) as [host path] eqn:S.
  destruct host as [| c host]; [discriminate |].
  destruct (Demo.path_ok path) eqn:P; [| discriminate].
  destruct path as [| d path].
  - intros E. inversion E; subst u; clear E. simpl href.
    exists (Demo.lowercase (String c host) ++ "/")%string.
    split; [reflexivity |].
    rewrite (demo_span_host rest S "/" eq_refl).
    rewrite demo_lowercase_idempotent. reflexivity.
  - destruct (Demo.starts_with_slash (String d path)) eqn:Sl; [| discriminate].
    intros E. inversion E; subst u; clear E. simpl href.
    exists (Demo.lowercase (String c host) ++ String d path)%string.
    split; [reflexivity |].
    rewrite (demo_span_host rest S (String d path) Sl).
    rewrite demo_lowercase_idempotent.
    change (Demo.lowercase (String c host))
      with (String (Demo.to_lower c) (Demo.lowercase host)).
    cbv iota. rewrite P, Sl. reflexivity.
Qed.

Lemma demo_parse_http (tail : string) :
  Demo.parse ("http://" ++ tail) = Demo.after_scheme "http://" tail.
Proof. reflexivity. Qed.

Lemma demo_parse_https (tail : string) :
  Demo.parse ("https://" ++ tail) = Demo.after_scheme "https://" tail.
Proof. reflexivity. Qed.

Lemma demo_href_is_fixed_point : href_is_fixed_point Demo.url.
Proof.
  intros s u. simpl. unfold Demo.parse at 1.
  destruct (Demo.strip_ci "http://" s) as [rest |].
  - intros E. apply demo_after_scheme_fixed in E.
    destruct E as (tail & Hh & E). exists u. split; [| reflexivity].
    rewrite Hh, demo_parse_http. exact E.
  - destruct (Demo.strip_ci "https://" s) as [rest |]; [| discriminate].
    intros E. apply demo_after_scheme_fixed in E.
    destruct E as (tail & Hh & E). exists u. split; [| reflexivity].
    rewrite Hh, demo_parse_https. exact E.
Qed.

(** ** Evaluation on concrete artifacts *)

(** Split a membership in a list that is written out into its cases. *)
Ltac in_cases H :=
  repeat (destruct H as [H | H]; [try subst |]); try contradiction H.

(** ** The origin filter *)

Lemma filter_filter_andb {A : Type} (f g : A -> bool) (l : list A) :
  filter g (filter f l) = filter (fun x => f x && g x) l.
Proof.
  induction l as [| x l IH]; [reflexivity |].
  simpl. destruct (f x); simpl; [destruct (g x) |]; now rewrite IH.
Qed.

Section OriginFilter.

Context {U : UrlShim}.

Lemma getVersionsForOrigin_Normal (versions : list Version.t) (pageUrl : URL) :
  (forall v, In v versions -> Version.status v = "activated" ->
             URL_parse (Version.scriptURL v) <> None) ->
  getVersionsForOrigin versions pageUrl
  = Normal (filter (activated_on_origin pageUrl) versions).
Proof.
  intros H. unfold getVersionsForOrigin.
  rewrite filter_c_Normal
    with (g := fun v => match URL_parse (Version.scriptURL v) with
                        | Some u => (origin u =? origin pageUrl)%string
                        | None => false
                        end).
  - now rewrite filter_filter_andb.
  - intros v Hv. apply filter_In in Hv. destruct Hv as [Hv Hact].
    apply String.eqb_eq in Hact.
    destruct (new_URL_parses _ (H v Hv Hact)) as (u & -> & ->). reflexivity.
Qed.

Lemma activated_on_origin_true (pageUrl : URL) (v : Version.t) :
  activated_on_origin pageUrl v = true <->
  Version.status v = "activated"
  /\ exists u, URL_parse (Version.scriptURL v) = Some u
               /\ origin u = origin pageUrl.
Proof.
  unfold activated_on_origin. rewrite andb_true_iff, String.eqb_eq.
  destruct (URL_parse (Version.scriptURL v)) as [u |].
  - rewrite String.eqb_eq. split.
    + intros [S O]. split; [exact S | now exists u].
    + intros [S (u' & E & O)]. inversion E. now subst.
  - split; [intros [_ F]; discriminate F | intros [_ (u' & E & _)]].
    discriminate E.
Qed.

(** The filter returns only if the script URL of every activated version
    is a URL. *)
Lemma getVersionsForOrigin_returns_only_if (versions : list Version.t)
    (pageUrl : URL) :
  returns (getVersionsForOrigin versions pageUrl) ->
  forall v, In v versions -> Version.status v = "activated" ->
            URL_parse (Version.scriptURL v) <> None.
Proof.
  intros [out E] v Hv Hact N.
  destruct (@filter_c_Throw _
              (fun v => u <- new_URL (Version.scriptURL v) ;;
                        Normal (origin u =? origin pageUrl)%string)
              (filter (fun v => (Version.status v =? "activated")%string)
                      versions)
              v TypeError_InvalidURL) as [e T].
  - apply filter_In. split; [exact Hv | now apply String.eqb_eq].
  - unfold new_URL. now rewrite N.
  - unfold getVersionsForOrigin in E. rewrite T in E. discriminate E.
Qed.

(** C6, as amended. For every versions list in which the [scriptURL] of each
    activated version is a URL, and every page URL, the origin filter
    returns exactly the input versions whose [status] is 'activated' and
    whose [scriptURL] has the origin of the page, in their input order; a
    version is in the output exactly when it is such an input version, and
    the output is no longer than the input. *)
Theorem getVersionsForOrigin_keeps (versions : list Version.t)
    (pageUrl : URL) :
  (forall v, In v versions -> Version.status v = "activated" ->
             URL_parse (Version.scriptURL v) <> None) ->
  getVersionsForOrigin versions pageUrl
  = Normal (filter (activated_on_origin pageUrl) versions)
  /\ (forall v, In v (filter (activated_on_origin pageUrl) versions) <->
        In v versions
        /\ Version.status v = "activated"
        /\ exists u, URL_parse (Version.scriptURL v) = Some u
                     /\ origin u = origin pageUrl)
  /\ List.length (filter (activated_on_origin pageUrl) versions)
     <= List.length versions.
Proof.
  intros H. split; [now apply getVersionsForOrigin_Normal |]. split.
  - intros v. now rewrite filter_In, activated_on_origin_true.
  - apply filter_length_le.
Qed.

Lemma getVersionsForOrigin_origin (versions : list Version.t)
    (p1 p2 : URL) :
  origin p1 = origin p2 ->
  getVersionsForOrigin versions p1 = getVersionsForOrigin versions p2.
Proof. intros E. unfold getVersionsForOrigin. now rewrite E. Qed.

End OriginFilter.

(** C6, the claim as stated fails: on an activated version whose script URL
    is a relative reference the filter throws, where the claim has it
    return the empty subsequence. *)
Lemma getVersionsForOrigin_throws :
  @getVersionsForOrigin Demo.url [Demo.relative_worker] Demo.page
  = Throw TypeError_InvalidURL
  /\ filter (@activated_on_origin Demo.url Demo.page) [Demo.relative_worker]
     = [].
Proof. split; reflexivity. Qed.

(** The filter on the sample versions: the version that is not activated
    and the one of another origin are dropped, the order is kept. *)
Lemma getVersionsForOrigin_keeps_witness :
  @getVersionsForOrigin Demo.url Demo.versions Demo.page
  = Normal [Demo.root_worker; Demo.app_worker; Demo.unjoined_worker;
            Demo.app_worker_v2]
  /\ List.length
       [Demo.root_worker; Demo.app_worker; Demo.unjoined_worker;
        Demo.app_worker_v2]
     <= List.length Demo.versions.
Proof.
  assert (H : forall v, In v Demo.versions ->
                Version.status v = "activated" ->
                @URL_parse Demo.url (Version.scriptURL v) <> None).
  { intros v Hv Hact. unfold Demo.versions in Hv. simpl in Hv.
    in_cases Hv; solve [discriminate Hact | simpl; discriminate]. }
  destruct (@getVersionsForOrigin_keeps Demo.url Demo.versions Demo.page H)
    as (E & _ & L).
  split; [exact E | exact L].
Defined.

(** ** The controlling-scope resolver *)

Lemma filter_split {A : Type} (f : A -> bool) (l : list A) :
  forall front x back, filter f l = front ++ x :: back ->
  exists front' back',
    l = front' ++ x :: back'
    /\ filter f front' = front /\ filter f back' = back.
Proof.
  induction l as [| y l IH]; intros front x back E; simpl in E.
  - destruct front; discriminate E.
  - destruct (f y) eqn:Fy.
    + destruct front as [| z front]; simpl in E; injection E as -> E.
      * exists [], l. repeat split; assumption.
      * destruct (IH _ _ _ E) as (front' & back' & -> & Hf & Hb).
        exists (z :: front'), back'. simpl. rewrite Fy, Hf.
        repeat split; assumption.
    + destruct (IH _ _ _ E) as (front' & back' & -> & Hf & Hb).
      exists (y :: front'), back'. simpl. rewrite Fy.
      repeat split; assumption.
Qed.

Section Resolver.

Context {U : UrlShim}.

Lemma getControllingServiceWorker_Normal (versions : list Version.t)
    (registrations : list Registration.t) (pageUrl : URL)
    (result : option ScriptByScope) :
  getControllingServiceWorker versions registrations pageUrl = Normal result ->
  exists candidates,
    populate versions registrations [] = Normal candidates
    /\ result
       = pop (sort by_scope_length
                (filter (fun c => startsWith (href pageUrl) (scopeUrl c))
                        candidates)).
Proof.
  unfold getControllingServiceWorker. intros E.
  apply bind_Normal_inv in E. destruct E as (candidates & P & E).
  inversion E. now exists candidates.
Qed.

(** What the resolver returns is one of the candidates in scope. *)
Lemma getControllingServiceWorker_In (versions : list Version.t)
    (registrations : list Registration.t) (pageUrl : URL)
    (ss : ScriptByScope) :
  getControllingServiceWorker versions registrations pageUrl
  = Normal (Some ss) ->
  exists candidates,
    populate versions registrations [] = Normal candidates
    /\ In ss candidates
    /\ startsWith (href pageUrl) (scopeUrl ss) = true.
Proof.
  intros E. apply getControllingServiceWorker_Normal in E.
  destruct E as (candidates & P & E). exists candidates.
  split; [exact P |]. symmetry in E. apply pop_In, sort_In, filter_In in E.
  exact E.
Qed.

(** C2. When the candidate list the resolver builds has a scope that is a
    prefix of the page's href, the resolver returns a candidate in scope
    such that no candidate in scope is longer and every candidate in scope
    after it, in candidate order, is strictly shorter: the longest match,
    and the last one among the matches of greatest length. *)
Theorem resolver_selects_last_longest (versions : list Version.t)
    (registrations : list Registration.t) (pageUrl : URL)
    (candidates : list ScriptByScope) :
  populate versions registrations [] = Normal candidates ->
  (exists c, In c candidates
             /\ startsWith (href pageUrl) (scopeUrl c) = true) ->
  exists ss front back,
    getControllingServiceWorker versions registrations pageUrl
    = Normal (Some ss)
    /\ candidates = front ++ ss :: back
    /\ startsWith (href pageUrl) (scopeUrl ss) = true
    /\ (forall c, In c front ->
          startsWith (href pageUrl) (scopeUrl c) = true ->
          String.length (scopeUrl c) <= String.length (scopeUrl ss))
    /\ (forall c, In c back ->
          startsWith (href pageUrl) (scopeUrl c) = true ->
          String.length (scopeUrl c) < String.length (scopeUrl ss)).
Proof.
  intros P (c & Hc & Sc).
  set (inScope := fun c => startsWith (href pageUrl) (scopeUrl c)).
  destruct (@pop_sort_last_longest (filter inScope candidates))
    as (ss & front & back & Hpop & Hsplit & Hfront & Hback).
  { intros N. assert (I : In c (filter inScope candidates))
      by (apply filter_In; split; assumption).
    rewrite N in I. contradiction I. }
  destruct (filter_split _ _ _ _ _ Hsplit) as (front' & back' & E & Ff & Fb).
  exists ss, front', back'.
  assert (Iss : In ss (filter inScope candidates))
    by (rewrite Hsplit; apply in_or_app; right; now left).
  apply filter_In in Iss. destruct Iss as [_ Sss].
  repeat split.
  - unfold getControllingServiceWorker. rewrite P. simpl.
    fold inScope. now rewrite Hpop.
  - exact E.
  - exact Sss.
  - intros d Hd Sd. rewrite Forall_forall in Hfront. apply Hfront.
    rewrite <- Ff. apply filter_In. split; assumption.
  - intros d Hd Sd. rewrite Forall_forall in Hback. apply Hback.
    rewrite <- Fb. apply filter_In. split; assumption.
Qed.

(** C7. Whenever the resolver returns a scope match, its [scopeUrl] is a
    literal prefix of the page's href: [startsWith] holds of it, that is,
    the href is the scope followed by some rest. *)
Theorem resolver_scope_is_prefix (versions : list Version.t)
    (registrations : list Registration.t) (pageUrl : URL)
    (ss : ScriptByScope) :
  getControllingServiceWorker versions registrations pageUrl
  = Normal (Some ss) ->
  startsWith (href pageUrl) (scopeUrl ss) = true
  /\ exists rest, href pageUrl = (scopeUrl ss ++ rest)%string.
Proof.
  intros E. apply getControllingServiceWorker_In in E.
  destruct E as (candidates & _ & _ & S).
  split; [exact S | now apply startsWith_spec].
Qed.

(** C9. Under the fixed-point property of the URL class, every [scopeUrl]
    the resolver returns constructs a URL whose href is that same string. *)
Theorem resolver_scope_is_normalized (versions : list Version.t)
    (registrations : list Registration.t) (pageUrl : URL)
    (ss : ScriptByScope) :
  href_is_fixed_point U ->
  getControllingServiceWorker versions registrations pageUrl
  = Normal (Some ss) ->
  exists u, new_URL (scopeUrl ss) = Normal u /\ href u = scopeUrl ss.
Proof.
  intros Fix E. apply getControllingServiceWorker_In in E.
  destruct E as (candidates & P & I & _).
  apply populate_extends in P. destruct P as (added & -> & F).
  simpl in I. rewrite Forall_forall in F.
  destruct (F ss I) as (s & u & Hs & Hh).
  destruct (Fix s u Hs) as (u' & Hp & Hh').
  exists u'. rewrite Hh. split; [now apply new_URL_Normal | exact Hh'].
Qed.

(** C8. A version is joined to the first registration, in list order, that
    has its [registrationId], whatever registrations follow it: the loop
    constructs the URLs of that registration's scope and of the version's
    script and pushes the pair of hrefs. A version whose id no registration
    has leaves the array as it is. *)
Theorem join_uses_first_registration (version : Version.t)
    (rest : list Version.t) (registrations : list Registration.t)
    (acc : list ScriptByScope) :
  (forall before r after,
      registrations = before ++ r :: after ->
      Forall (fun r' => Registration.registrationId r'
                        <> Version.registrationId version) before ->
      Registration.registrationId r = Version.registrationId version ->
      populate (version :: rest) registrations acc
      = (scope <- new_URL (Registration.scopeURL r) ;;
         script <- new_URL (Version.scriptURL version) ;;
         populate rest registrations
           (acc ++ [{| scopeUrl := href scope; scriptUrl := href script |}])))
  /\ (Forall (fun r' => Registration.registrationId r'
                        <> Version.registrationId version) registrations ->
      populate (version :: rest) registrations acc
      = populate rest registrations acc).
Proof.
  split.
  - intros before r after -> Hb Hr. simpl.
    rewrite find_first; [reflexivity | | now apply String.eqb_eq].
    eapply Forall_impl; [| exact Hb]. intros r' N. now apply String.eqb_neq.
  - intros Hn. simpl. rewrite find_none; [reflexivity |].
    eapply Forall_impl; [| exact Hn]. intros r' N. now apply String.eqb_neq.
Qed.

End Resolver.

(** Two candidates tie on the longest scope in scope of the sample page;
    the resolver returns the later one. *)
Lemma resolver_selects_last_longest_witness :
  exists ss front back,
    @getControllingServiceWorker Demo.url
      [Demo.root_worker; Demo.app_worker; Demo.unjoined_worker;
       Demo.app_worker_v2] Demo.registrations Demo.page
    = Normal (Some ss)
    /\ [ {| scopeUrl := "https://example.com/";
            scriptUrl := "https://example.com/sw.js" |};
         {| scopeUrl := "https://example.com/app/";
            scriptUrl := "https://example.com/app/sw.js" |};
         {| scopeUrl := "https://example.com/app/";
            scriptUrl := "https://example.com/app/sw-v2.js" |} ]
       = front ++ ss :: back
    /\ scriptUrl ss = "https://example.com/app/sw-v2.js".
Proof.
  destruct (@resolver_selects_last_longest Demo.url
              [Demo.root_worker; Demo.app_worker; Demo.unjoined_worker;
               Demo.app_worker_v2] Demo.registrations Demo.page
              [ {| scopeUrl := "https://example.com/";
                   scriptUrl := "https://example.com/sw.js" |};
                {| scopeUrl := "https://example.com/app/";
                   scriptUrl := "https://example.com/app/sw.js" |};
                {| scopeUrl := "https://example.com/app/";
                   scriptUrl := "https://example.com/app/sw-v2.js" |} ])
    as (ss & front & back & E & S & _).
  - reflexivity.
  - eexists. split; [left; reflexivity | reflexivity].
  - exists ss, front, back. split; [exact E |]. split; [exact S |].
    vm_compute in E. now inversion E.
Defined.

(** The scope returned for the sample page is a prefix of its href. *)
Lemma resolver_scope_is_prefix_witness :
  startsWith (href Demo.page) "https://example.com/app/" = true
  /\ exists rest, href Demo.page = ("https://example.com/app/" ++ rest)%string.
Proof.
  apply (@resolver_scope_is_prefix Demo.url
           [Demo.root_worker; Demo.app_worker; Demo.unjoined_worker;
            Demo.app_worker_v2] Demo.registrations Demo.page
           {| scopeUrl := "https://example.com/app/";
              scriptUrl := "https://example.com/app/sw-v2.js" |}).
  reflexivity.
Defined.

(** The scope returned for the sample page constructs a URL of that href. *)
Lemma resolver_scope_is_normalized_witness :
  exists u, @new_URL Demo.url "https://example.com/app/" = Normal u
            /\ href u = "https://example.com/app/".
Proof.
  apply (@resolver_scope_is_normalized Demo.url
           [Demo.root_worker; Demo.app_worker; Demo.unjoined_worker;
            Demo.app_worker_v2] Demo.registrations Demo.page
           {| scopeUrl := "https://example.com/app/";
              scriptUrl := "https://example.com/app/sw-v2.js" |}).
  - exact demo_href_is_fixed_point.
  - reflexivity.
Defined.

(** Registration "2" occurs twice: the version is joined to the first, and
    the version with id "9", which no registration has, adds nothing. *)
Lemma join_uses_first_registration_witness :
  @populate Demo.url [Demo.app_worker; Demo.unjoined_worker]
    Demo.registrations []
  = Normal [ {| scopeUrl := "https://example.com/app/";
                scriptUrl := "https://example.com/app/sw.js" |} ].
Proof.
  destruct (@join_uses_first_registration Demo.url Demo.app_worker
              [Demo.unjoined_worker] Demo.registrations []) as [First _].
  rewrite (First [Demo.registration "1" "HTTPS://Example.COM"]
                 (Demo.registration "2" "https://example.com/app/")
                 [Demo.registration "2" "https://example.com/app/page/deeper/";
                  Demo.registration "5" "https://EXAMPLE.com/app/"]).
  - destruct (@join_uses_first_registration Demo.url Demo.unjoined_worker
                [] Demo.registrations
                [ {| scopeUrl := "https://example.com/app/";
                     scriptUrl := "https://example.com/app/sw.js" |} ])
      as [_ Skip].
    change (@populate Demo.url [Demo.unjoined_worker] Demo.registrations
              [ {| scopeUrl := "https://example.com/app/";
                   scriptUrl := "https://example.com/app/sw.js" |} ]
            = Normal [ {| scopeUrl := "https://example.com/app/";
                          scriptUrl := "https://example.com/app/sw.js" |} ]).
    rewrite Skip; [reflexivity |].
    repeat constructor; discriminate.
  - reflexivity.
  - repeat constructor; discriminate.
  - reflexivity.
Defined.

(** ** The start-URL validator *)

Lemma templates_differ :
  UIStrings.explanationNoManifest <> UIStrings.explanationBadManifest
  /\ UIStrings.explanationNoManifest <> UIStrings.explanationBadStartUrl
  /\ UIStrings.explanationBadManifest <> UIStrings.explanationBadStartUrl
  /\ UIStrings.explanationOutOfScope <> UIStrings.explanationNoManifest
  /\ UIStrings.explanationOutOfScope <> UIStrings.explanationBadManifest
  /\ UIStrings.explanationOutOfScope <> UIStrings.explanationBadStartUrl.
Proof. repeat split; apply String.eqb_neq; reflexivity. Qed.

Lemma Some_str_inj (m1 m2 : string) (v1 v2 : list (string * string)) :
  Some (str_ m1 v1) = Some (str_ m2 v2) -> m1 = m2 /\ v1 = v2.
Proof. intros E. inversion E. split; reflexivity. Qed.

(** C5. [checkStartUrl] returns the 'no manifest fetched' message exactly
    when the artifact is absent, the 'failed to parse' message exactly when
    the artifact is present without a parsed value, the 'start_url not in
    scope' message, with the start_url and the scope, exactly when the
    parsed value's start_url does not start with the scope, and nothing
    exactly when it does; the result is always one of the four. *)
Theorem checkStartUrl_cases (m : option Manifest.t) (scope : string) :
  (checkStartUrl m scope = Some (str_ UIStrings.explanationNoManifest [])
   <-> m = None)
  /\ (checkStartUrl m scope = Some (str_ UIStrings.explanationBadManifest [])
      <-> exists mf, m = Some mf /\ Manifest.value mf = None)
  /\ (forall start,
        checkStartUrl m scope
        = Some (str_ UIStrings.explanationBadStartUrl
                  [("startUrl", start); ("scopeUrl", scope)])
        <-> exists mf v,
              m = Some mf /\ Manifest.value mf = Some v
              /\ ManifestValues.start_url v = start
              /\ startsWith start scope = false)
  /\ (checkStartUrl m scope = None
      <-> exists mf v,
            m = Some mf /\ Manifest.value mf = Some v
            /\ startsWith (ManifestValues.start_url v) scope = true)
  /\ (checkStartUrl m scope = Some (str_ UIStrings.explanationNoManifest [])
      \/ checkStartUrl m scope
         = Some (str_ UIStrings.explanationBadManifest [])
      \/ (exists start,
            checkStartUrl m scope
            = Some (str_ UIStrings.explanationBadStartUrl
                      [("startUrl", start); ("scopeUrl", scope)]))
      \/ checkStartUrl m scope = None).
Proof.
  destruct templates_differ as (D1 & D2 & D3 & _).
  destruct m as [[[[start0] |]] |]; unfold checkStartUrl;
    cbn [Manifest.value ManifestValues.start_url].
  - (* a parsed value *)
    destruct (startsWith start0 scope) eqn:S; cbn [negb].
    + (* in scope *)
      split; [split; discriminate |].
      split; [split; [discriminate | intros (mf & E & V)] |].
      { inversion E; subst mf. discriminate V. }
      split; [intros start; split; [discriminate |] |].
      { intros (mf & v & E & V & Hs & F). inversion E; subst mf.
        inversion V; subst v. simpl in Hs. subst start. congruence. }
      split; [split; [intros _ | reflexivity] |].
      { eexists _, _. repeat split. exact S. }
      right. right. right. reflexivity.
    + (* not in scope *)
      split; [split; [intros E | discriminate] |].
      { apply Some_str_inj in E. destruct E as [_ E]. discriminate E. }
      split; [split; [intros E | intros (mf & E & V)] |].
      { apply Some_str_inj in E. destruct E as [_ E]. discriminate E. }
      { inversion E; subst mf. discriminate V. }
      split; [intros start; split; [intros E |] |].
      { apply Some_str_inj in E. destruct E as [_ E]. inversion E.
        subst start. eexists _, _. repeat split. exact S. }
      { intros (mf & v & E & V & Hs & F). inversion E; subst mf.
        inversion V; subst v. simpl in Hs. now subst start. }
      split; [split; [discriminate | intros (mf & v & E & V & F)] |].
      { inversion E; subst mf. inversion V; subst v. simpl in F.
        congruence. }
      right. right. left. now exists start0.
  - (* no parsed value *)
    split; [split; [intros E | discriminate] |].
    { apply Some_str_inj in E. destruct E as [E _]. congruence. }
    split; [split; [intros _ | reflexivity] |].
    { eexists. split; reflexivity. }
    split; [intros start; split; [intros E |] |].
    { apply Some_str_inj in E. destruct E as [E _]. congruence. }
    { intros (mf & v & E & V & _). inversion E; subst mf. discriminate V. }
    split; [split; [discriminate | intros (mf & v & E & V & _)] |].
    { inversion E; subst mf. discriminate V. }
    right. left. reflexivity.
  - (* no artifact *)
    split; [split; reflexivity |].
    split; [split; [intros E | intros (mf & E & _); discriminate E] |].
    { apply Some_str_inj in E. destruct E as [E _]. congruence. }
    split; [intros start; split; [intros E |] |].
    { apply Some_str_inj in E. destruct E as [E _]. congruence. }
    { intros (mf & v & E & _). discriminate E. }
    split; [split; [discriminate | intros (mf & v & E & _)] |].
    { discriminate E. }
    left. reflexivity.
Qed.

(** ** The orchestrator *)

Section Audit.

Context {U : UrlShim}.

(** The verdict once the page URL and the origin filter have returned. *)
Lemma audit_after_filter (a : Artifacts.t) (pageUrl : URL)
    (versionsForOrigin : list Version.t) :
  URL_parse (Artifacts.finalUrl (Artifacts.URL a)) = Some pageUrl ->
  getVersionsForOrigin (Artifacts.versions (Artifacts.ServiceWorker a)) pageUrl
  = Normal versionsForOrigin ->
  audit a
  = match versionsForOrigin with
    | [] => Normal no_worker_verdict
    | _ :: _ =>
        serviceWorkerUrls <-
          getControllingServiceWorker versionsForOrigin
            (Artifacts.registrations (Artifacts.ServiceWorker a)) pageUrl ;;
        match serviceWorkerUrls with
        | None =>
            Normal {| Product.score := 0;
                      Product.explanation :=
                        Some (str_ UIStrings.explanationOutOfScope
                                [("pageUrl", href pageUrl)]);
                      Product.details := None |}
        | Some ss =>
            match checkStartUrl (Artifacts.WebAppManifest a) (scopeUrl ss) with
            | Some startUrlFailure =>
                Normal {| Product.score := 0;
                          Product.explanation := Some startUrlFailure;
                          Product.details := Some (details_of ss) |}
            | None =>
                Normal {| Product.score := 1;
                          Product.explanation := None;
                          Product.details := Some (details_of ss) |}
            end
        end
    end.
Proof.
  intros P F. unfold audit, new_URL. rewrite P. cbn [bind]. rewrite F.
  cbn [bind]. destruct versionsForOrigin; reflexivity.
Qed.

Lemma audit_Normal_inv (a : Artifacts.t) (p : Product.t) :
  audit a = Normal p ->
  exists pageUrl versionsForOrigin,
    URL_parse (Artifacts.finalUrl (Artifacts.URL a)) = Some pageUrl
    /\ getVersionsForOrigin
         (Artifacts.versions (Artifacts.ServiceWorker a)) pageUrl
       = Normal versionsForOrigin.
Proof.
  unfold audit. intros E.
  apply bind_Normal_inv in E. destruct E as (pageUrl & P & E).
  apply bind_Normal_inv in E. destruct E as (vfo & F & _).
  exists pageUrl, vfo. split; [now apply new_URL_Normal | exact F].
Qed.

(** C1. Once the page URL is constructed, [audit] is a decision tree over
    the results of its three stages: an empty origin filter gives score 0
    with no explanation and no details; else no scope match gives score 0
    with the out-of-scope explanation naming the page's href and no
    details; else a start-URL failure gives score 0 with that message and
    the details of the match; else score 1 with the details of the match.
    Every verdict [audit] returns is one of these four. *)
Theorem audit_decision_tree (a : Artifacts.t) (pageUrl : URL) :
  URL_parse (Artifacts.finalUrl (Artifacts.URL a)) = Some pageUrl ->
  (getVersionsForOrigin (Artifacts.versions (Artifacts.ServiceWorker a))
     pageUrl = Normal [] ->
   audit a = Normal {| Product.score := 0;
                       Product.explanation := None;
                       Product.details := None |})
  /\ (forall versionsForOrigin,
        getVersionsForOrigin (Artifacts.versions (Artifacts.ServiceWorker a))
          pageUrl = Normal versionsForOrigin ->
        versionsForOrigin <> [] ->
        getControllingServiceWorker versionsForOrigin
          (Artifacts.registrations (Artifacts.ServiceWorker a)) pageUrl
        = Normal None ->
        audit a = Normal {| Product.score := 0;
                            Product.explanation :=
                              Some (str_ UIStrings.explanationOutOfScope
                                      [("pageUrl", href pageUrl)]);
                            Product.details := None |})
  /\ (forall versionsForOrigin ss failure,
        getVersionsForOrigin (Artifacts.versions (Artifacts.ServiceWorker a))
          pageUrl = Normal versionsForOrigin ->
        versionsForOrigin <> [] ->
        getControllingServiceWorker versionsForOrigin
          (Artifacts.registrations (Artifacts.ServiceWorker a)) pageUrl
        = Normal (Some ss) ->
        checkStartUrl (Artifacts.WebAppManifest a) (scopeUrl ss)
        = Some failure ->
        audit a = Normal {| Product.score := 0;
                            Product.explanation := Some failure;
                            Product.details :=
                              Some {| DebugData.type := "debugdata";
                                      DebugData.scriptUrl := scriptUrl ss;
                                      DebugData.scopeUrl := scopeUrl ss |} |})
  /\ (forall versionsForOrigin ss,
        getVersionsForOrigin (Artifacts.versions (Artifacts.ServiceWorker a))
          pageUrl = Normal versionsForOrigin ->
        versionsForOrigin <> [] ->
        getControllingServiceWorker versionsForOrigin
          (Artifacts.registrations (Artifacts.ServiceWorker a)) pageUrl
        = Normal (Some ss) ->
        checkStartUrl (Artifacts.WebAppManifest a) (scopeUrl ss) = None ->
        audit a = Normal {| Product.score := 1;
                            Product.explanation := None;
                            Product.details :=
                              Some {| DebugData.type := "debugdata";
                                      DebugData.scriptUrl := scriptUrl ss;
                                      DebugData.scopeUrl := scopeUrl ss |} |})
  /\ (forall p,
        audit a = Normal p ->
        p = {| Product.score := 0;
               Product.explanation := None;
               Product.details := None |}
        \/ p = {| Product.score := 0;
                  Product.explanation :=
                    Some (str_ UIStrings.explanationOutOfScope
                            [("pageUrl", href pageUrl)]);
                  Product.details := None |}
        \/ (exists ss failure,
              p = {| Product.score := 0;
                     Product.explanation := Some failure;
                     Product.details :=
                       Some {| DebugData.type := "debugdata";
                               DebugData.scriptUrl := scriptUrl ss;
                               DebugData.scopeUrl := scopeUrl ss |} |})
        \/ (exists ss,
              p = {| Product.score := 1;
                     Product.explanation := None;
                     Product.details :=
                       Some {| DebugData.type := "debugdata";
                               DebugData.scriptUrl := scriptUrl ss;
                               DebugData.scopeUrl := scopeUrl ss |} |})).
Proof.
  intros P. repeat split.
  - intros F. now rewrite (audit_after_filter a P F).
  - intros vfo F N R. rewrite (audit_after_filter a P F).
    destruct vfo; [contradiction N; reflexivity |]. now rewrite R.
  - intros vfo ss failure F N R C. rewrite (audit_after_filter a P F).
    destruct vfo; [contradiction N; reflexivity |]. rewrite R. cbn [bind].
    now rewrite C.
  - intros vfo ss F N R C. rewrite (audit_after_filter a P F).
    destruct vfo; [contradiction N; reflexivity |]. rewrite R. cbn [bind].
    now rewrite C.
  - intros p E. destruct (audit_Normal_inv a E) as (pageUrl' & vfo & P' & F).
    rewrite P in P'. inversion P'; subst pageUrl'.
    rewrite (audit_after_filter a P F) in E.
    destruct vfo as [| v vfo]; [left; now inversion E |].
    apply bind_Normal_inv in E. destruct E as ([ss |] & R & E).
    + destruct (checkStartUrl (Artifacts.WebAppManifest a) (scopeUrl ss))
        as [failure |]; inversion E; right; right.
      * left. now exists ss, failure.
      * right. now exists ss.
    + right. left. now inversion E.
Qed.

(** The verdict of the first branch is returned exactly when the origin
    filter returns the empty list. *)
Lemma audit_no_worker_iff (a : Artifacts.t) (pageUrl : URL) :
  URL_parse (Artifacts.finalUrl (Artifacts.URL a)) = Some pageUrl ->
  audit a = Normal no_worker_verdict <->
  getVersionsForOrigin (Artifacts.versions (Artifacts.ServiceWorker a)) pageUrl
  = Normal [].
Proof.
  intros P. split.
  - intros E. destruct (audit_Normal_inv a E) as (pageUrl' & vfo & P' & F).
    rewrite P in P'. inversion P'; subst pageUrl'.
    rewrite (audit_after_filter a P F) in E.
    destruct vfo as [| v vfo]; [exact F |].
    apply bind_Normal_inv in E. destruct E as ([ss |] & R & E).
    + destruct (checkStartUrl (Artifacts.WebAppManifest a) (scopeUrl ss));
        discriminate E.
    + discriminate E.
  - intros F. now rewrite (audit_after_filter a P F).
Qed.

(** C10. The origin filter reads the page URL's origin only: on two page
    URLs of one origin it gives the same result for every versions list,
    and so, for artifacts that differ in [finalUrl] only, [audit] returns
    the verdict of the branch 'no service worker on this origin' for one
    exactly when it does for the other. *)
Theorem origin_filter_reads_origin_only (p1 p2 : URL) :
  origin p1 = origin p2 ->
  (forall versions,
      getVersionsForOrigin versions p1 = getVersionsForOrigin versions p2)
  /\ (forall final1 final2 sw manifest,
        URL_parse final1 = Some p1 -> URL_parse final2 = Some p2 ->
        audit {| Artifacts.URL := {| Artifacts.finalUrl := final1 |};
                 Artifacts.ServiceWorker := sw;
                 Artifacts.WebAppManifest := manifest |}
        = Normal no_worker_verdict
        <-> audit {| Artifacts.URL := {| Artifacts.finalUrl := final2 |};
                     Artifacts.ServiceWorker := sw;
                     Artifacts.WebAppManifest := manifest |}
            = Normal no_worker_verdict).
Proof.
  intros O. split.
  - intros versions. now apply getVersionsForOrigin_origin.
  - intros final1 final2 sw manifest P1 P2.
    rewrite (@audit_no_worker_iff _ p1) by exact P1.
    rewrite (@audit_no_worker_iff _ p2) by exact P2.
    cbn [Artifacts.ServiceWorker].
    now rewrite (@getVersionsForOrigin_origin _ _ p1 p2 O).
Qed.

End Audit.

(** The last branch of the tree, on the sample artifacts. *)
Lemma audit_decision_tree_witness :
  @audit Demo.url Demo.passing
  = Normal {| Product.score := 1;
              Product.explanation := None;
              Product.details :=
                Some {| DebugData.type := "debugdata";
                        DebugData.scriptUrl := "https://example.com/app/sw-v2.js";
                        DebugData.scopeUrl := "https://example.com/app/" |} |}.
Proof.
  destruct (@audit_decision_tree Demo.url Demo.passing Demo.page eq_refl)
    as (_ & _ & _ & Pass & _).
  apply (Pass [Demo.root_worker; Demo.app_worker; Demo.unjoined_worker;
               Demo.app_worker_v2]
              {| scopeUrl := "https://example.com/app/";
                 scriptUrl := "https://example.com/app/sw-v2.js" |}).
  - reflexivity.
  - discriminate.
  - reflexivity.
  - reflexivity.
Defined.

(** Two pages of the origin https://example.com. *)
Lemma origin_filter_reads_origin_only_witness :
  @getVersionsForOrigin Demo.url Demo.versions Demo.page
  = @getVersionsForOrigin Demo.url Demo.versions Demo.other_page
  /\ (@audit Demo.url
        (Demo.artifacts "https://example.com/app/page" [Demo.foreign_worker]
           None)
      = Normal no_worker_verdict
      <-> @audit Demo.url
            (Demo.artifacts "https://example.com/shop/cart"
               [Demo.foreign_worker] None)
          = Normal no_worker_verdict).
Proof.
  destruct (@origin_filter_reads_origin_only Demo.url Demo.page
              Demo.other_page eq_refl) as [Same Verdict].
  split; [apply Same |].
  apply (Verdict "https://example.com/app/page"
                 "https://example.com/shop/cart"); reflexivity.
Defined.

(** ** When the evaluation returns *)

Section Totality.

Context {U : UrlShim}.

Lemma populate_returns_only_if (versions : list Version.t)
    (registrations : list Registration.t) :
  forall acc, returns (populate versions registrations acc) ->
  forall v r, In v versions -> find (joins v) registrations = Some r ->
              URL_parse (Registration.scopeURL r) <> None.
Proof.
  induction versions as [| v0 versions IH]; intros acc [l E] v r Hv F;
    [contradiction Hv |].
  simpl in E. fold (joins v0) in E. destruct Hv as [-> | Hv].
  - rewrite F in E. apply bind_Normal_inv in E.
    destruct E as (scope & Es & _). apply new_URL_Normal in Es.
    now rewrite Es.
  - destruct (find (joins v0) registrations).
    + apply bind_Normal_inv in E. destruct E as (scope & _ & E).
      apply bind_Normal_inv in E. destruct E as (script & _ & E).
      eapply IH; [eexists; exact E | exact Hv | exact F].
    + eapply IH; [eexists; exact E | exact Hv | exact F].
Qed.

(** C3, as amended. When [finalUrl], the [scriptURL] of every activated
    version and the [scopeURL] of the registration joined to every
    activated version of the page's origin are URLs, [audit] returns a
    verdict, and the verdict stands for one of the six outcomes. *)
Theorem audit_returns_an_outcome (a : Artifacts.t) :
  constructs_urls a ->
  exists p o, audit a = Normal p /\ outcome_of p = Some o.
Proof.
  intros (pageUrl & P & Hs & Hr).
  pose proof (getVersionsForOrigin_Normal _ pageUrl Hs) as F.
  rewrite (audit_after_filter a P F).
  destruct (filter (activated_on_origin pageUrl)
              (Artifacts.versions (Artifacts.ServiceWorker a)))
    as [| v0 vfo] eqn:Efo.
  - exists no_worker_verdict, NoWorkerForOrigin. split; reflexivity.
  - destruct (@populate_returns U (v0 :: vfo)
                (Artifacts.registrations (Artifacts.ServiceWorker a)))
      with (acc := @nil ScriptByScope) as [candidates Pc].
    + intros v Hv. rewrite <- Efo in Hv. apply filter_In in Hv.
      destruct Hv as [_ Hv]. apply activated_on_origin_true in Hv.
      destruct Hv as (_ & u & -> & _). discriminate.
    + intros v r Hv Fr. rewrite <- Efo in Hv. apply filter_In in Hv.
      destruct Hv as [Hin Hv]. exact (Hr v r Hin Hv Fr).
    + unfold getControllingServiceWorker. rewrite Pc. cbn [bind].
      destruct (pop _) as [ss |].
      * destruct (Artifacts.WebAppManifest a) as [[[[start] |]] |];
          unfold checkStartUrl;
          cbn [Manifest.value ManifestValues.start_url];
          [destruct (startsWith start (scopeUrl ss)); cbn [negb] | |];
          eexists; eexists; split; reflexivity.
      * eexists; eexists; split; reflexivity.
Qed.

(** [audit] returns only if those strings are URLs. *)
Lemma audit_returns_only_if (a : Artifacts.t) :
  returns (audit a) -> constructs_urls a.
Proof.
  intros [p E]. destruct (audit_Normal_inv a E) as (pageUrl & vfo & P & F).
  exists pageUrl. split; [exact P |].
  assert (Hs : forall v,
             In v (Artifacts.versions (Artifacts.ServiceWorker a)) ->
             Version.status v = "activated" ->
             URL_parse (Version.scriptURL v) <> None).
  { apply getVersionsForOrigin_returns_only_if with (pageUrl := pageUrl).
    now exists vfo. }
  split; [exact Hs |]. intros v r Hv Hact Fr.
  rewrite (audit_after_filter a P F) in E.
  rewrite (getVersionsForOrigin_Normal _ pageUrl Hs) in F.
  inversion F as [Efo].
  assert (Iv : In v vfo) by (rewrite <- Efo; apply filter_In; now split).
  destruct vfo as [| v0 vfo']; [contradiction Iv |].
  apply bind_Normal_inv in E. destruct E as (res & R & _).
  unfold getControllingServiceWorker in R.
  apply bind_Normal_inv in R. destruct R as (candidates & Pc & _).
  eapply populate_returns_only_if; [eexists; exact Pc | exact Iv | exact Fr].
Qed.

End Totality.

(** C3, the claim as stated fails: with an activated version whose script
    URL is the relative reference "/sw.js", constructing its URL throws and
    [audit] returns no verdict. *)
Lemma audit_throws :
  @audit Demo.url Demo.with_relative_script = Throw TypeError_InvalidURL.
Proof. reflexivity. Qed.

(** The sample artifacts construct URLs only, and the audit returns. *)
Lemma audit_returns_an_outcome_witness :
  exists p o, @audit Demo.url Demo.passing = Normal p /\ outcome_of p = Some o.
Proof.
  apply (@audit_returns_an_outcome Demo.url Demo.passing).
  exists Demo.page. split; [reflexivity |]. split.
  - intros v Hv Hact. simpl in Hv. unfold Demo.versions in Hv. simpl in Hv.
    in_cases Hv; solve [discriminate Hact | simpl; discriminate].
  - intros v r Hv Hon Fr. simpl in Hv. unfold Demo.versions in Hv.
    simpl in Hv.
    in_cases Hv; try discriminate Hon; vm_compute in Fr;
      try discriminate Fr; inversion Fr; simpl; discriminate.
Defined.

(** ** The operands of the prefix comparisons *)

Lemma filter_t_startsWith (h : string) (l : list ScriptByScope) :
  filter_t (fun ss => startsWith_t h (scopeUrl ss)) l
  = (filter (fun ss => startsWith h (scopeUrl ss)) l,
     map (fun ss => {| receiver := h; searched := scopeUrl ss |}) l).
Proof.
  induction l as [| x l IH]; [reflexivity |].
  simpl. now rewrite IH.
Qed.

Section Comparisons.

Context {U : UrlShim}.

Lemma getControllingServiceWorker_t_eq (versions : list Version.t)
    (registrations : list Registration.t) (pageUrl : URL) :
  getControllingServiceWorker_t versions registrations pageUrl
  = (candidates <- populate versions registrations [] ;;
     Normal
       (pop (sort by_scope_length
               (filter (fun ss => startsWith (href pageUrl) (scopeUrl ss))
                       candidates)),
        map (fun ss => {| receiver := href pageUrl;
                          searched := scopeUrl ss |}) candidates)).
Proof.
  unfold getControllingServiceWorker_t.
  destruct (populate versions registrations []) as [candidates | e];
    [| reflexivity].
  cbn [bind]. now rewrite filter_t_startsWith.
Qed.

Lemma checkStartUrl_t_fst (m : option Manifest.t) (scope : string) :
  fst (checkStartUrl_t m scope) = checkStartUrl m scope.
Proof. destruct m as [[[[start] |]] |]; reflexivity. Qed.

(** The recorded evaluation returns the verdict of [audit]. *)
Lemma audit_t_erases (a : Artifacts.t) :
  audit a = (r <- audit_t a ;; Normal (fst r)).
Proof.
  unfold audit, audit_t.
  destruct (new_URL _) as [pageUrl | e]; [cbn [bind] | reflexivity].
  destruct (getVersionsForOrigin _ pageUrl) as [vfo | e];
    [cbn [bind] | reflexivity].
  destruct (List.length vfo =? 0)%nat; [reflexivity |].
  rewrite getControllingServiceWorker_t_eq. unfold getControllingServiceWorker.
  destruct (populate vfo _ []) as [candidates | e]; [cbn [bind] | reflexivity].
  destruct (pop _) as [ss |]; [| reflexivity].
  rewrite <- checkStartUrl_t_fst.
  destruct (checkStartUrl_t _ (scopeUrl ss)) as [[failure |] calls'];
    reflexivity.
Qed.

Lemma href_normalized (s : string) (u : URL) :
  href_is_fixed_point U -> URL_parse s = Some u -> normalized (href u).
Proof.
  intros Fix P. destruct (Fix s u P) as (u' & P' & H'). now exists u'.
Qed.

(** C4, as amended. Under the fixed-point property of the URL class, in
    every [startsWith] call of an evaluation the searched prefix is the
    normalized scope URL of a candidate; the receiver is the normalized
    href of the page in the resolver, and in the start-URL validator it is
    the start_url string as the manifest artifact carries it. *)
Theorem comparisons_of_audit (a : Artifacts.t) (p : Product.t)
    (calls : list Comparison) :
  href_is_fixed_point U ->
  audit_t a = Normal (p, calls) ->
  exists pageUrl,
    URL_parse (Artifacts.finalUrl (Artifacts.URL a)) = Some pageUrl
    /\ normalized (href pageUrl)
    /\ Forall (fun c => normalized (searched c)
                        /\ (receiver c = href pageUrl
                            \/ manifest_start_url a = Some (receiver c)))
              calls.
Proof.
  intros Fix E. unfold audit_t in E.
  apply bind_Normal_inv in E. destruct E as (pageUrl & P & E).
  apply new_URL_Normal in P.
  exists pageUrl. split; [exact P |].
  split; [exact (@href_normalized _ _ Fix P) |].
  apply bind_Normal_inv in E. destruct E as (vfo & _ & E).
  destruct (List.length vfo =? 0)%nat; [inversion E; constructor |].
  apply bind_Normal_inv in E. destruct E as ([res calls1] & R & E).
  rewrite getControllingServiceWorker_t_eq in R.
  apply bind_Normal_inv in R. destruct R as (candidates & Pc & R).
  inversion R as [[Hres Hcalls]]; clear R. subst res calls1.
  apply populate_extends in Pc. destruct Pc as (added & Ec & Fc).
  simpl in Ec. subst added.
  assert (Nc : forall c, In c candidates -> normalized (scopeUrl c)).
  { intros c Hc. rewrite Forall_forall in Fc.
    destruct (Fc c Hc) as (s & u & Ps & ->). exact (@href_normalized _ _ Fix Ps). }
  assert (F1 : Forall (fun c => normalized (searched c)
                                /\ (receiver c = href pageUrl
                                    \/ manifest_start_url a
                                       = Some (receiver c)))
                      (map (fun ss => {| receiver := href pageUrl;
                                         searched := scopeUrl ss |})
                           candidates)).
  { apply Forall_forall. intros c Hc. apply in_map_iff in Hc.
    destruct Hc as (ss & <- & Hss). simpl. split; [now apply Nc | now left]. }
  destruct (pop _) as [ss |] eqn:Hpop.
  - apply pop_In, sort_In, filter_In in Hpop. destruct Hpop as [Iss _].
    unfold checkStartUrl_t, manifest_start_url in *.
    destruct (Artifacts.WebAppManifest a) as [[[[start] |]] |];
      cbn [Manifest.value ManifestValues.start_url startsWith_t] in *.
    + assert (Ecalls : calls
                       = map (fun ss => {| receiver := href pageUrl;
                                           searched := scopeUrl ss |})
                             candidates
                         ++ [{| receiver := start;
                                searched := scopeUrl ss |}])
        by (destruct (negb (startsWith start (scopeUrl ss)));
            now inversion E).
      rewrite Ecalls. apply Forall_app. split; [exact F1 |].
      constructor; [| constructor]. simpl. split; [now apply Nc | now right].
    + inversion E. rewrite app_nil_r. exact F1.
    + inversion E. rewrite app_nil_r. exact F1.
  - inversion E. exact F1.
Qed.

End Comparisons.

(** C4, the claim as stated fails: the start-URL validator compares the
    manifest's start_url as written. Here it is an upper-case spelling of a
    URL in scope; it is not normalized, the comparison with the normalized
    scope fails where the one of its href succeeds, and the score is 0. *)
Lemma audit_compares_raw_start_url :
  exists p calls c u,
    @audit_t Demo.url Demo.shouting_start_url = Normal (p, calls)
    /\ In c calls
    /\ receiver c = "HTTPS://EXAMPLE.COM/app/index.html"
    /\ searched c = "https://example.com/app/"
    /\ @URL_parse Demo.url (receiver c) = Some u
    /\ href u = "https://example.com/app/index.html"
    /\ (href u =? receiver c)%string = false
    /\ startsWith (receiver c) (searched c) = false
    /\ startsWith (href u) (searched c) = true
    /\ Product.score p = 0.
Proof.
  eexists _, _, {| receiver := "HTTPS://EXAMPLE.COM/app/index.html";
                   searched := "https://example.com/app/" |}, _.
  split; [reflexivity |].
  split; [simpl; do 3 right; left; reflexivity |].
  repeat split; reflexivity.
Qed.

(** The four [startsWith] calls of the evaluation of the sample artifacts:
    one per candidate, then the one of the start-URL validator. *)
Lemma comparisons_of_audit_witness :
  exists pageUrl,
    @URL_parse Demo.url "https://example.com/app/page" = Some pageUrl
    /\ @normalized Demo.url (href pageUrl)
    /\ Forall (fun c => @normalized Demo.url (searched c)
                        /\ (receiver c = href pageUrl
                            \/ Some "https://example.com/app/index.html"
                               = Some (receiver c)))
         [ {| receiver := "https://example.com/app/page";
              searched := "https://example.com/" |};
           {| receiver := "https://example.com/app/page";
              searched := "https://example.com/app/" |};
           {| receiver := "https://example.com/app/page";
              searched := "https://example.com/app/" |};
           {| receiver := "https://example.com/app/index.html";
              searched := "https://example.com/app/" |} ].
Proof.
  eapply (@comparisons_of_audit Demo.url Demo.passing).
  - exact demo_href_is_fixed_point.
  - reflexivity.
Defined.

(** * Further properties of the audit *)

(** ** Where the reported worker comes from *)

Section Provenance.

Context {U : UrlShim}.

(** Every pair the loop pushes is made of the hrefs of a version's script
    and of the scope of the registration [find] joined to it. *)
Lemma populate_provenance (versions : list Version.t)
    (registrations : list Registration.t) :
  forall acc l, populate versions registrations acc = Normal l ->
    exists added, l = acc ++ added
      /\ Forall (fun ss =>
                   exists v r sc sr,
                     In v versions
                     /\ find (joins v) registrations = Some r
                     /\ URL_parse (Registration.scopeURL r) = Some sc
                     /\ URL_parse (Version.scriptURL v) = Some sr
                     /\ ss = {| scopeUrl := href sc; scriptUrl := href sr |})
                added.
Proof.
  induction versions as [| v versions IH]; intros acc l E; simpl in E.
  - inversion E. exists []. split; [now rewrite app_nil_r | constructor].
  - fold (joins v) in E.
    destruct (find (joins v) registrations) as [r |] eqn:Fr.
    + apply bind_Normal_inv in E. destruct E as (sc & Es & E).
      apply bind_Normal_inv in E. destruct E as (sr & Ec & E).
      apply new_URL_Normal in Es, Ec.
      apply IH in E. destruct E as (added & -> & F).
      eexists. rewrite <- app_assoc. split; [reflexivity |].
      simpl. constructor.
      * exists v, r, sc, sr. repeat split; try assumption. now left.
      * eapply Forall_impl; [| exact F].
        intros ss (v' & r' & sc' & sr' & I & H).
        exists v', r', sc', sr'. split; [now right | exact H].
    + apply IH in E. destruct E as (added & -> & F).
      exists added. split; [reflexivity |].
      eapply Forall_impl; [| exact F].
      intros ss (v' & r' & sc' & sr' & I & H).
      exists v', r', sc', sr'. split; [now right | exact H].
Qed.

(** What the origin filter returns, when it returns. *)
Lemma getVersionsForOrigin_Normal_inv (versions out : list Version.t)
    (pageUrl : URL) :
  getVersionsForOrigin versions pageUrl = Normal out ->
  out = filter (activated_on_origin pageUrl) versions.
Proof.
  intros E.
  assert (H : forall v, In v versions -> Version.status v = "activated" ->
                URL_parse (Version.scriptURL v) <> None).
  { apply getVersionsForOrigin_returns_only_if with (pageUrl := pageUrl).
    now exists out. }
  rewrite (getVersionsForOrigin_Normal _ pageUrl H) in E. now inversion E.
Qed.

(** The verdicts that carry details are those of a scope match. *)
Lemma audit_details_inv (a : Artifacts.t) (p : Product.t) (d : DebugData.t) :
  audit a = Normal p -> Product.details p = Some d ->
  exists pageUrl ss,
    URL_parse (Artifacts.finalUrl (Artifacts.URL a)) = Some pageUrl
    /\ getControllingServiceWorker
         (filter (activated_on_origin pageUrl)
                 (Artifacts.versions (Artifacts.ServiceWorker a)))
         (Artifacts.registrations (Artifacts.ServiceWorker a)) pageUrl
       = Normal (Some ss)
    /\ d = details_of ss
    /\ ((Product.score p = 1 /\ Product.explanation p = None
         /\ checkStartUrl (Artifacts.WebAppManifest a) (scopeUrl ss) = None)
        \/ (Product.score p = 0
            /\ Product.explanation p
               = checkStartUrl (Artifacts.WebAppManifest a) (scopeUrl ss)
            /\ Product.explanation p <> None)).
Proof.
  intros E D. destruct (audit_Normal_inv a E) as (pageUrl & vfo & P & F).
  rewrite (audit_after_filter a P F) in E.
  apply getVersionsForOrigin_Normal_inv in F. subst vfo.
  destruct (filter _ _) as [| v0 vfo] eqn:Efo.
  { inversion E; subst p. discriminate D. }
  apply bind_Normal_inv in E. destruct E as ([ss |] & R & E).
  - exists pageUrl, ss. split; [exact P |]. split; [rewrite Efo; exact R |].
    destruct (checkStartUrl _ (scopeUrl ss)) as [failure |];
      inversion E; subst p; simpl in D; inversion D.
    + split; [reflexivity |]. right. repeat split. discriminate.
    + split; [reflexivity |]. left. repeat split.
  - inversion E; subst p. discriminate D.
Qed.

(** X1. The details of a verdict name a worker the inputs justify: the
    script is the href of the [scriptURL] of an activated version of the
    page's origin, the scope is the href of the [scopeURL] of the first
    registration with that version's [registrationId], and that scope is a
    prefix of the page's href. *)
Theorem audit_details_provenance (a : Artifacts.t) (p : Product.t)
    (d : DebugData.t) :
  audit a = Normal p ->
  Product.details p = Some d ->
  exists pageUrl v r sc sr,
    URL_parse (Artifacts.finalUrl (Artifacts.URL a)) = Some pageUrl
    /\ In v (Artifacts.versions (Artifacts.ServiceWorker a))
    /\ Version.status v = "activated"
    /\ URL_parse (Version.scriptURL v) = Some sr
    /\ origin sr = origin pageUrl
    /\ find (fun r => (Registration.registrationId r
                       =? Version.registrationId v)%string)
            (Artifacts.registrations (Artifacts.ServiceWorker a)) = Some r
    /\ Registration.registrationId r = Version.registrationId v
    /\ URL_parse (Registration.scopeURL r) = Some sc
    /\ DebugData.type d = "debugdata"
    /\ DebugData.scriptUrl d = href sr
    /\ DebugData.scopeUrl d = href sc
    /\ startsWith (href pageUrl) (href sc) = true.
Proof.
  intros E D.
  destruct (audit_details_inv a E D) as (pageUrl & ss & P & R & -> & _).
  apply getControllingServiceWorker_In in R.
  destruct R as (candidates & Pc & Iss & S).
  apply populate_provenance in Pc. destruct Pc as (added & Ec & Fc).
  simpl in Ec. subst added. rewrite Forall_forall in Fc.
  destruct (Fc ss Iss) as (v & r & sc & sr & Iv & Fr & Psc & Psr & ->).
  apply filter_In in Iv. destruct Iv as [Iv Hon].
  apply activated_on_origin_true in Hon.
  destruct Hon as (Hact & sr' & Psr' & Ho).
  rewrite Psr in Psr'. inversion Psr'; subst sr'.
  exists pageUrl, v, r, sc, sr. repeat split; try assumption.
  apply find_some in Fr. destruct Fr as [_ J]. now apply String.eqb_eq in J.
Qed.

(** X2. Given the candidate list the loop builds, the resolver returns no
    match exactly when no candidate's scope is a prefix of the page's href;
    in particular it returns none on an empty candidate list. *)
Theorem resolver_absent_iff (versions : list Version.t)
    (registrations : list Registration.t) (pageUrl : URL)
    (candidates : list ScriptByScope) :
  populate versions registrations [] = Normal candidates ->
  getControllingServiceWorker versions registrations pageUrl = Normal None
  <-> Forall (fun c => startsWith (href pageUrl) (scopeUrl c) = false)
             candidates.
Proof.
  intros P. unfold getControllingServiceWorker. rewrite P. cbn [bind].
  split.
  - intros E. inversion E as [Hpop]. apply pop_None in Hpop.
    apply Forall_forall. intros c Hc.
    destruct (startsWith (href pageUrl) (scopeUrl c)) eqn:S; [| reflexivity].
    assert (I : In c (sort by_scope_length
                        (filter (fun c => startsWith (href pageUrl)
                                            (scopeUrl c)) candidates)))
      by (apply sort_In, filter_In; split; assumption).
    rewrite Hpop in I. contradiction I.
  - intros F. f_equal. apply pop_None.
    destruct (sort _ _) as [| c l] eqn:Es; [reflexivity |].
    assert (I : In c (sort by_scope_length
                        (filter (fun c => startsWith (href pageUrl)
                                            (scopeUrl c)) candidates)))
      by (rewrite Es; now left).
    apply sort_In, filter_In in I. destruct I as [I S].
    rewrite Forall_forall in F. rewrite (F c I) in S. discriminate S.
Qed.

(** X3. A passing verdict is sound: when [audit] returns score 1, the
    verdict has no explanation and carries details whose scope is a prefix
    both of the page's href and of the start_url the manifest artifact
    carries. *)
Theorem audit_pass_sound (a : Artifacts.t) (p : Product.t) :
  audit a = Normal p ->
  Product.score p = 1 ->
  exists pageUrl d start,
    URL_parse (Artifacts.finalUrl (Artifacts.URL a)) = Some pageUrl
    /\ Product.explanation p = None
    /\ Product.details p = Some d
    /\ manifest_start_url a = Some start
    /\ startsWith (href pageUrl) (DebugData.scopeUrl d) = true
    /\ startsWith start (DebugData.scopeUrl d) = true.
Proof.
  intros E S1.
  destruct (Product.details p) as [d |] eqn:D.
  - destruct (audit_details_inv a E D)
      as (pageUrl & ss & P & R & -> & [(_ & X & C) | (S0 & _)]);
      [| rewrite S0 in S1; discriminate S1].
    apply getControllingServiceWorker_In in R.
    destruct R as (_ & _ & _ & Sp).
    unfold checkStartUrl in C. unfold manifest_start_url.
    destruct (Artifacts.WebAppManifest a) as [[[[start] |]] |];
      try discriminate C.
    cbn [Manifest.value ManifestValues.start_url] in *.
    destruct (startsWith start (scopeUrl ss)) eqn:Ss; [| discriminate C].
    exists pageUrl, (details_of ss), start. repeat split; assumption.
  - exfalso. destruct (audit_Normal_inv a E) as (pageUrl & vfo & P & F).
    rewrite (audit_after_filter a P F) in E.
    destruct vfo as [| v0 vfo]; [inversion E; subst p; discriminate S1 |].
    apply bind_Normal_inv in E. destruct E as ([ss |] & R & E).
    + destruct (checkStartUrl _ (scopeUrl ss)); inversion E; subst p;
        discriminate D.
    + inversion E; subst p. discriminate S1.
Qed.

End Provenance.

(** ** Versions that do not count *)

Lemma filter_c_app {A : Type} (f : A -> completion bool) (l1 l2 : list A) :
  filter_c f (l1 ++ l2)
  = (kept1 <- filter_c f l1 ;; kept2 <- filter_c f l2 ;;
     Normal (kept1 ++ kept2)).
Proof.
  induction l1 as [| x l1 IH]; simpl.
  - destruct (filter_c f l2); reflexivity.
  - destruct (f x) as [b | e]; [cbn [bind] | reflexivity]. rewrite IH.
    destruct (filter_c f l1) as [k1 | e]; [cbn [bind] | reflexivity].
    destruct (filter_c f l2) as [k2 | e]; [cbn [bind] | reflexivity].
    destruct b; reflexivity.
Qed.

Section VersionsThatDoNotCount.

Context {U : UrlShim}.

(** X4. The origin filter distributes over concatenation: filtering
    [l1 ++ l2] is filtering [l1], then [l2], and appending the results; it
    throws when one of the two does. *)
Theorem getVersionsForOrigin_app (l1 l2 : list Version.t) (pageUrl : URL) :
  getVersionsForOrigin (l1 ++ l2) pageUrl
  = (kept1 <- getVersionsForOrigin l1 pageUrl ;;
     kept2 <- getVersionsForOrigin l2 pageUrl ;;
     Normal (kept1 ++ kept2)).
Proof.
  unfold getVersionsForOrigin. rewrite filter_app. apply filter_c_app.
Qed.

Lemma getVersionsForOrigin_concat (l1 l2 : list Version.t) (pageUrl : URL) :
  getVersionsForOrigin (l1 ++ l2) pageUrl
  = (kept1 <- getVersionsForOrigin l1 pageUrl ;;
     kept2 <- getVersionsForOrigin l2 pageUrl ;;
     Normal (kept1 ++ kept2)).
Proof.
  unfold getVersionsForOrigin. rewrite filter_app. apply filter_c_app.
Qed.

(** A version the filter drops can be taken out of the input. *)
Lemma getVersionsForOrigin_without (before after : list Version.t)
    (v : Version.t) (pageUrl : URL) :
  getVersionsForOrigin [v] pageUrl = Normal [] ->
  getVersionsForOrigin (before ++ v :: after) pageUrl
  = getVersionsForOrigin (before ++ after) pageUrl.
Proof.
  intros Hv. change (v :: after) with ([v] ++ after).
  rewrite (getVersionsForOrigin_concat before ([v] ++ after)).
  rewrite (getVersionsForOrigin_concat before after).
  destruct (getVersionsForOrigin before pageUrl); [cbn [bind] | reflexivity].
  rewrite (getVersionsForOrigin_concat [v] after), Hv. cbn [bind].
  destruct (getVersionsForOrigin after pageUrl); reflexivity.
Qed.

(** [audit] reads the versions through the origin filter only. *)
Lemma audit_versions_congruence (final : string)
    (versions1 versions2 : list Version.t)
    (registrations : list Registration.t) (m : option Manifest.t) :
  (forall pageUrl, URL_parse final = Some pageUrl ->
     getVersionsForOrigin versions1 pageUrl
     = getVersionsForOrigin versions2 pageUrl) ->
  audit {| Artifacts.URL := {| Artifacts.finalUrl := final |};
           Artifacts.ServiceWorker :=
             {| Artifacts.versions := versions1;
                Artifacts.registrations := registrations |};
           Artifacts.WebAppManifest := m |}
  = audit {| Artifacts.URL := {| Artifacts.finalUrl := final |};
             Artifacts.ServiceWorker :=
               {| Artifacts.versions := versions2;
                  Artifacts.registrations := registrations |};
             Artifacts.WebAppManifest := m |}.
Proof.
  intros H. unfold audit, new_URL. simpl.
  destruct (URL_parse final) as [pageUrl |] eqn:P; [| reflexivity].
  cbn [bind]. now rewrite (H pageUrl eq_refl).
Qed.

(** X5. A version that is not activated never counts: with or without it
    in the versions list, whatever its [scriptURL], [audit] gives the same
    result. *)
Theorem audit_ignores_inactive_version (final : string)
    (before after : list Version.t) (v : Version.t)
    (registrations : list Registration.t) (m : option Manifest.t) :
  Version.status v <> "activated" ->
  audit {| Artifacts.URL := {| Artifacts.finalUrl := final |};
           Artifacts.ServiceWorker :=
             {| Artifacts.versions := before ++ v :: after;
                Artifacts.registrations := registrations |};
           Artifacts.WebAppManifest := m |}
  = audit {| Artifacts.URL := {| Artifacts.finalUrl := final |};
             Artifacts.ServiceWorker :=
               {| Artifacts.versions := before ++ after;
                  Artifacts.registrations := registrations |};
             Artifacts.WebAppManifest := m |}.
Proof.
  intros N. apply audit_versions_congruence. intros pageUrl _.
  apply getVersionsForOrigin_without.
  unfold getVersionsForOrigin. simpl.
  apply String.eqb_neq in N. now rewrite N.
Qed.

(** X6. An activated version whose script is a URL of another origin than
    the page never counts: with or without it in the versions list, [audit]
    gives the same result. *)
Theorem audit_ignores_foreign_version (final : string) (pageUrl u : URL)
    (before after : list Version.t) (v : Version.t)
    (registrations : list Registration.t) (m : option Manifest.t) :
  URL_parse final = Some pageUrl ->
  URL_parse (Version.scriptURL v) = Some u ->
  origin u <> origin pageUrl ->
  audit {| Artifacts.URL := {| Artifacts.finalUrl := final |};
           Artifacts.ServiceWorker :=
             {| Artifacts.versions := before ++ v :: after;
                Artifacts.registrations := registrations |};
           Artifacts.WebAppManifest := m |}
  = audit {| Artifacts.URL := {| Artifacts.finalUrl := final |};
             Artifacts.ServiceWorker :=
               {| Artifacts.versions := before ++ after;
                  Artifacts.registrations := registrations |};
             Artifacts.WebAppManifest := m |}.
Proof.
  intros P Pv N. apply audit_versions_congruence. intros pageUrl' P'.
  rewrite P in P'. inversion P'; subst pageUrl'.
  apply getVersionsForOrigin_without.
  unfold getVersionsForOrigin, new_URL. simpl.
  destruct (Version.status v =? "activated")%string; [| reflexivity].
  simpl. rewrite Pv. cbn [bind].
  apply String.eqb_neq in N. now rewrite N.
Qed.

(** X7. The origin filter is idempotent: filtering its own output for the
    same page returns that output. *)
Theorem getVersionsForOrigin_idempotent (versions out : list Version.t)
    (pageUrl : URL) :
  getVersionsForOrigin versions pageUrl = Normal out ->
  getVersionsForOrigin out pageUrl = Normal out.
Proof.
  intros E. pose proof (getVersionsForOrigin_Normal_inv _ _ E) as Eo.
  assert (H : forall v, In v out -> Version.status v = "activated" ->
                URL_parse (Version.scriptURL v) <> None).
  { intros v Hv _. rewrite Eo in Hv. apply filter_In in Hv.
    destruct Hv as [_ Hv]. apply activated_on_origin_true in Hv.
    destruct Hv as (_ & u & -> & _). discriminate. }
  rewrite (getVersionsForOrigin_Normal _ pageUrl H). f_equal.
  rewrite Eo at 1. rewrite filter_filter_andb.
  rewrite Eo. apply filter_ext. intros v. now rewrite andb_diag.
Qed.

End VersionsThatDoNotCount.

(** ** When the audit throws *)

Section Throws.

Context {U : UrlShim}.

Lemma audit_returns_if (a : Artifacts.t) :
  constructs_urls a -> returns (audit a).
Proof.
  intros (pageUrl & P & Hs & Hr).
  pose proof (getVersionsForOrigin_Normal _ pageUrl Hs) as F.
  rewrite (audit_after_filter a P F).
  destruct (filter (activated_on_origin pageUrl)
              (Artifacts.versions (Artifacts.ServiceWorker a)))
    as [| v0 vfo] eqn:Efo; [now eexists |].
  destruct (@populate_returns U (v0 :: vfo)
              (Artifacts.registrations (Artifacts.ServiceWorker a)))
    with (acc := @nil ScriptByScope) as [candidates Pc].
  - intros v Hv. rewrite <- Efo in Hv. apply filter_In in Hv.
    destruct Hv as [_ Hv]. apply activated_on_origin_true in Hv.
    destruct Hv as (_ & u & -> & _). discriminate.
  - intros v r Hv Fr. rewrite <- Efo in Hv. apply filter_In in Hv.
    destruct Hv as [Hin Hv]. exact (Hr v r Hin Hv Fr).
  - unfold getControllingServiceWorker. rewrite Pc. cbn [bind].
    destruct (pop _) as [ss |]; [| now eexists].
    destruct (checkStartUrl _ (scopeUrl ss)); now eexists.
Qed.

(** X8. [audit] returns a verdict exactly when the strings it constructs
    URLs from are URLs: [finalUrl], the [scriptURL] of every activated
    version, and the [scopeURL] of the registration joined to every
    activated version of the page's origin. In every other case it throws
    the TypeError of the URL constructor. *)
Theorem audit_returns_iff (a : Artifacts.t) :
  (returns (audit a) <-> constructs_urls a)
  /\ (audit a = Throw TypeError_InvalidURL <-> ~ constructs_urls a).
Proof.
  assert (R : returns (audit a) <-> constructs_urls a)
    by (split; [apply audit_returns_only_if | apply audit_returns_if]).
  split; [exact R |]. split.
  - intros T C. apply R in C. destruct C as [p E]. rewrite E in T.
    discriminate T.
  - intros N. destruct (audit a) as [p | []] eqn:E; [| reflexivity].
    contradiction N. apply R. now exists p.
Qed.

(** X9. With no registration at all, [audit] never passes and never
    attaches details: a verdict it returns has score 0 and either no
    explanation (no activated worker on the origin) or the out-of-scope
    explanation naming the page's href. *)
Theorem audit_without_registrations (a : Artifacts.t) (p : Product.t) :
  Artifacts.registrations (Artifacts.ServiceWorker a) = [] ->
  audit a = Normal p ->
  Product.score p = 0
  /\ Product.details p = None
  /\ (Product.explanation p = None
      \/ exists pageUrl,
           URL_parse (Artifacts.finalUrl (Artifacts.URL a)) = Some pageUrl
           /\ Product.explanation p
              = Some (str_ UIStrings.explanationOutOfScope
                        [("pageUrl", href pageUrl)])).
Proof.
  intros Hr E. destruct (audit_Normal_inv a E) as (pageUrl & vfo & P & F).
  rewrite (audit_after_filter a P F) in E.
  destruct vfo as [| v0 vfo].
  { inversion E. repeat split. now left. }
  apply bind_Normal_inv in E. destruct E as ([ss |] & R & E).
  - exfalso. apply getControllingServiceWorker_In in R.
    destruct R as (candidates & Pc & Iss & _).
    apply populate_provenance in Pc. destruct Pc as (added & Ec & Fc).
    simpl in Ec. subst added. rewrite Forall_forall in Fc.
    destruct (Fc ss Iss) as (v & r & _ & _ & _ & Fr & _).
    rewrite Hr in Fr. discriminate Fr.
  - inversion E. repeat split. right. now exists pageUrl.
Qed.

End Throws.

(** ** The order of the versions *)

Lemma Permutation_filter_bool {A : Type} (f : A -> bool) (l1 l2 : list A) :
  Permutation l1 l2 -> Permutation (filter f l1) (filter f l2).
Proof.
  induction 1 as [| x l1 l2 _ IH | x y l | l1 l2 l3 _ IH1 _ IH2]; simpl.
  - constructor.
  - destruct (f x); [now constructor | exact IH].
  - destruct (f x), (f y); try reflexivity. apply perm_swap.
  - now transitivity (filter f l2).
Qed.

(** The scope [sort] then [pop] selects among the candidates in scope
    does not depend on their order. *)
Lemma controlling_scope_perm (h : string) (c1 c2 : list ScriptByScope) :
  Permutation c1 c2 ->
  option_map scopeUrl
    (pop (sort by_scope_length
            (filter (fun c => startsWith h (scopeUrl c)) c1)))
  = option_map scopeUrl
      (pop (sort by_scope_length
              (filter (fun c => startsWith h (scopeUrl c)) c2))).
Proof.
  intros Pm.
  pose proof (Permutation_filter_bool
                (fun c => startsWith h (scopeUrl c)) Pm) as Pf.
  set (l1 := filter (fun c => startsWith h (scopeUrl c)) c1) in *.
  set (l2 := filter (fun c => startsWith h (scopeUrl c)) c2) in *.
  destruct l1 as [| x1 l1'] eqn:E1.
  - apply Permutation_nil in Pf. now rewrite Pf.
  - destruct l2 as [| x2 l2'] eqn:E2;
      [symmetry in Pf; apply Permutation_nil in Pf; discriminate Pf |].
    destruct (@pop_sort_last_longest (x1 :: l1'))
      as (s1 & f1 & b1 & P1 & S1 & F1 & B1); [discriminate |].
    destruct (@pop_sort_last_longest (x2 :: l2'))
      as (s2 & f2 & b2 & P2 & S2 & F2 & B2); [discriminate |].
    rewrite P1, P2. simpl. f_equal.
    assert (Bound : forall (l f b : list ScriptByScope) s c,
               l = f ++ s :: b ->
               Forall (fun c => String.length (scopeUrl c)
                                <= String.length (scopeUrl s)) f ->
               Forall (fun c => String.length (scopeUrl c)
                                < String.length (scopeUrl s)) b ->
               In c l ->
               String.length (scopeUrl c) <= String.length (scopeUrl s)).
    { intros l f b s c -> Hf Hb Hc. rewrite Forall_forall in Hf, Hb.
      apply in_app_or in Hc. destruct Hc as [Hc | [<- | Hc]].
      - now apply Hf.
      - reflexivity.
      - apply Nat.lt_le_incl. now apply Hb. }
    assert (I1 : In s1 (x1 :: l1'))
      by (rewrite S1; apply in_or_app; right; now left).
    assert (I2 : In s2 (x2 :: l2'))
      by (rewrite S2; apply in_or_app; right; now left).
    assert (L12 : String.length (scopeUrl s1) <= String.length (scopeUrl s2)).
    { apply (Bound _ _ _ _ _ S2 F2 B2). eapply Permutation_in; eassumption. }
    assert (L21 : String.length (scopeUrl s2) <= String.length (scopeUrl s1)).
    { apply (Bound _ _ _ _ _ S1 F1 B1). eapply Permutation_in;
        [symmetry |]; eassumption. }
    rewrite <- E1 in I1. rewrite <- E2 in I2. subst l1 l2.
    apply filter_In in I1, I2.
    apply (prefixes_of_equal_length h); [apply I1 | apply I2 | lia].
Qed.

Section Order.

Context {U : UrlShim}.

Lemma populate_cons (v : Version.t) (versions : list Version.t)
    (registrations : list Registration.t) (acc : list ScriptByScope) :
  populate (v :: versions) registrations acc
  = (pairs <- contribution registrations v ;;
     populate versions registrations (acc ++ pairs)).
Proof.
  simpl. unfold contribution. fold (joins v).
  destruct (find (joins v) registrations) as [r |];
    [| cbn [bind]; now rewrite app_nil_r].
  destruct (new_URL (Registration.scopeURL r)); [cbn [bind] | reflexivity].
  destruct (new_URL (Version.scriptURL v)); reflexivity.
Qed.

(** The loop returns exactly when every version's contribution does, and
    then it returns the contributions in the order of the versions. *)
Lemma populate_pairs (versions : list Version.t)
    (registrations : list Registration.t) :
  forall acc,
    (returns (populate versions registrations acc)
     <-> Forall (fun v => returns (contribution registrations v)) versions)
    /\ (forall l, populate versions registrations acc = Normal l ->
          l = acc ++ flat_map (pairs_of registrations) versions).
Proof.
  induction versions as [| v versions IH]; intros acc.
  - split; [split; [constructor | intros _; now exists acc] |].
    intros l E. inversion E. simpl. now rewrite app_nil_r.
  - rewrite populate_cons. cbn [flat_map].
    destruct (contribution registrations v) as [pairs | e] eqn:C; cbn [bind].
    + destruct (IH (acc ++ pairs)) as [R L]. split.
      * rewrite R. split.
        -- intros F. constructor; [now exists pairs | exact F].
        -- intros F. now inversion F.
      * intros l E. rewrite (L l E).
        assert (Hp : pairs_of registrations v = pairs)
          by (unfold pairs_of; now rewrite C).
        now rewrite Hp, app_assoc.
    + split; [split |].
      * intros [l E]. discriminate E.
      * intros F. inversion F as [| ? ? [l E] _]. rewrite C in E.
        discriminate E.
      * intros l E. discriminate E.
Qed.

(** On two lists of the same versions the loop returns for both or for
    neither. *)
Lemma populate_returns_perm (versions1 versions2 : list Version.t)
    (registrations : list Registration.t) :
  Permutation versions1 versions2 ->
  returns (populate versions1 registrations [])
  <-> returns (populate versions2 registrations []).
Proof.
  intros Pm.
  destruct (populate_pairs versions1 registrations []) as [R1 _].
  destruct (populate_pairs versions2 registrations []) as [R2 _].
  rewrite R1, R2. split; apply Permutation_Forall;
    [exact Pm | symmetry; exact Pm].
Qed.

Lemma resolver_scope_perm (versions1 versions2 : list Version.t)
    (registrations : list Registration.t) (pageUrl : URL)
    (r1 r2 : option ScriptByScope) :
  Permutation versions1 versions2 ->
  getControllingServiceWorker versions1 registrations pageUrl = Normal r1 ->
  getControllingServiceWorker versions2 registrations pageUrl = Normal r2 ->
  option_map scopeUrl r1 = option_map scopeUrl r2.
Proof.
  intros Pm E1 E2.
  destruct (populate_pairs versions1 registrations []) as [_ L1].
  destruct (populate_pairs versions2 registrations []) as [_ L2].
  apply getControllingServiceWorker_Normal in E1, E2.
  destruct E1 as (c1 & P1 & ->), E2 as (c2 & P2 & ->).
  apply controlling_scope_perm.
  rewrite (L1 c1 P1), (L2 c2 P2). simpl.
  now apply Permutation_flat_map.
Qed.

(** X10. The controlling scope does not depend on the order of the
    versions: on two lists of the same versions the resolver returns for
    both or throws for both, and what it returns has the same [scopeUrl]
    (or is absent in both). *)
Theorem resolver_scope_order_independent (versions1 versions2 : list Version.t)
    (registrations : list Registration.t) (pageUrl : URL) :
  Permutation versions1 versions2 ->
  (returns (getControllingServiceWorker versions1 registrations pageUrl)
   <-> returns (getControllingServiceWorker versions2 registrations pageUrl))
  /\ (forall r1 r2,
        getControllingServiceWorker versions1 registrations pageUrl
        = Normal r1 ->
        getControllingServiceWorker versions2 registrations pageUrl
        = Normal r2 ->
        option_map scopeUrl r1 = option_map scopeUrl r2).
Proof.
  intros Pm. split.
  - pose proof (populate_returns_perm registrations Pm) as RR.
    unfold getControllingServiceWorker.
    split; intros [r E]; apply bind_Normal_inv in E;
      destruct E as (c & Pc & _).
    + destruct (proj1 RR (ex_intro _ c Pc)) as [c' ->]. now eexists.
    + destruct (proj2 RR (ex_intro _ c Pc)) as [c' ->]. now eexists.
  - intros r1 r2 E1 E2.
    destruct (populate_pairs versions1 registrations []) as [_ L1].
    destruct (populate_pairs versions2 registrations []) as [_ L2].
    apply getControllingServiceWorker_Normal in E1, E2.
    destruct E1 as (c1 & P1 & ->), E2 as (c2 & P2 & ->).
    apply controlling_scope_perm.
    rewrite (L1 c1 P1), (L2 c2 P2). simpl.
    now apply Permutation_flat_map.
Qed.

End Order.

Section VerdictOrder.

Context {U : UrlShim}.

Lemma constructs_urls_perm (final : string)
    (versions1 versions2 : list Version.t)
    (registrations : list Registration.t) (m : option Manifest.t) :
  Permutation versions1 versions2 ->
  constructs_urls
    {| Artifacts.URL := {| Artifacts.finalUrl := final |};
       Artifacts.ServiceWorker :=
         {| Artifacts.versions := versions1;
            Artifacts.registrations := registrations |};
       Artifacts.WebAppManifest := m |} ->
  constructs_urls
    {| Artifacts.URL := {| Artifacts.finalUrl := final |};
       Artifacts.ServiceWorker :=
         {| Artifacts.versions := versions2;
            Artifacts.registrations := registrations |};
       Artifacts.WebAppManifest := m |}.
Proof.
  intros Pm (pageUrl & P & Hs & Hr). simpl in *.
  exists pageUrl. split; [exact P |]. simpl. split.
  - intros v Hv. apply Hs. eapply Permutation_in; [symmetry |]; eassumption.
  - intros v r Hv. apply Hr. eapply Permutation_in; [symmetry |]; eassumption.
Qed.

(** X11. The verdict does not depend on the order of the versions: on two
    lists of the same versions [audit] returns for both or throws for both,
    and the verdicts have the same score, the same explanation and details
    with the same scope; only the script reported among workers that share
    the controlling scope can differ. *)
Theorem audit_order_independent (final : string)
    (versions1 versions2 : list Version.t)
    (registrations : list Registration.t) (m : option Manifest.t) :
  Permutation versions1 versions2 ->
  (returns (audit {| Artifacts.URL := {| Artifacts.finalUrl := final |};
                     Artifacts.ServiceWorker :=
                       {| Artifacts.versions := versions1;
                          Artifacts.registrations := registrations |};
                     Artifacts.WebAppManifest := m |})
   <-> returns (audit {| Artifacts.URL := {| Artifacts.finalUrl := final |};
                         Artifacts.ServiceWorker :=
                           {| Artifacts.versions := versions2;
                              Artifacts.registrations := registrations |};
                         Artifacts.WebAppManifest := m |}))
  /\ (forall p1 p2,
        audit {| Artifacts.URL := {| Artifacts.finalUrl := final |};
                 Artifacts.ServiceWorker :=
                   {| Artifacts.versions := versions1;
                      Artifacts.registrations := registrations |};
                 Artifacts.WebAppManifest := m |} = Normal p1 ->
        audit {| Artifacts.URL := {| Artifacts.finalUrl := final |};
                 Artifacts.ServiceWorker :=
                   {| Artifacts.versions := versions2;
                      Artifacts.registrations := registrations |};
                 Artifacts.WebAppManifest := m |} = Normal p2 ->
        Product.score p1 = Product.score p2
        /\ Product.explanation p1 = Product.explanation p2
        /\ option_map DebugData.scopeUrl (Product.details p1)
           = option_map DebugData.scopeUrl (Product.details p2)).
Proof.
  intros Pm. split.
  - split; intros R; apply audit_returns_if;
      apply audit_returns_only_if in R;
      [ exact (constructs_urls_perm Pm R)
      | exact (constructs_urls_perm (Permutation_sym Pm) R) ].
  - intros p1 p2 E1 E2.
    destruct (audit_Normal_inv _ E1) as (pageUrl & vfo1 & P1 & F1).
    destruct (audit_Normal_inv _ E2) as (pageUrl' & vfo2 & P2 & F2).
    rewrite (audit_after_filter _ P1 F1) in E1.
    rewrite (audit_after_filter _ P2 F2) in E2.
    cbn [Artifacts.URL Artifacts.finalUrl Artifacts.ServiceWorker
         Artifacts.versions Artifacts.registrations Artifacts.WebAppManifest]
      in P1, P2, F1, F2, E1, E2.
    rewrite P1 in P2. inversion P2; subst pageUrl'.
    apply getVersionsForOrigin_Normal_inv in F1, F2.
    assert (Pf : Permutation vfo1 vfo2)
      by (subst vfo1 vfo2; now apply Permutation_filter_bool).
    destruct vfo1 as [| v1 vfo1'].
    { apply Permutation_nil in Pf. rewrite Pf in E2.
      inversion E1; inversion E2. repeat split. }
    destruct vfo2 as [| v2 vfo2'];
      [symmetry in Pf; apply Permutation_nil in Pf; discriminate Pf |].
    apply bind_Normal_inv in E1, E2.
    destruct E1 as (r1 & R1 & E1), E2 as (r2 & R2 & E2).
    pose proof (@resolver_scope_perm _ _ _ _ _ _ _ Pf R1 R2) as Same.
    destruct r1 as [s1 |], r2 as [s2 |]; simpl in Same;
      try discriminate Same.
    + inversion Same as [Es]. rewrite Es in E1.
      destruct (checkStartUrl m (scopeUrl s2));
        inversion E1; inversion E2; simpl; rewrite Es; repeat split.
    + inversion E1; inversion E2. repeat split.
Qed.

End VerdictOrder.

(** Two activated workers share the controlling scope of the sample page:
    the scope returned is the same in both orders, the script is not. *)
Example demo_resolver_order :
  @getControllingServiceWorker Demo.url
    [Demo.app_worker; Demo.app_worker_v2] Demo.registrations Demo.page
  = Normal (Some {| scopeUrl := "https://example.com/app/";
                    scriptUrl := "https://example.com/app/sw-v2.js" |})
  /\ @getControllingServiceWorker Demo.url
       [Demo.app_worker_v2; Demo.app_worker] Demo.registrations Demo.page
     = Normal (Some {| scopeUrl := "https://example.com/app/";
                       scriptUrl := "https://example.com/app/sw.js" |}).
Proof. split; reflexivity. Qed.

(** *** Evaluation on the sample artifacts *)

Lemma audit_details_provenance_witness :
  exists pageUrl v r sc sr,
    @URL_parse Demo.url "https://example.com/app/page" = Some pageUrl
    /\ In v Demo.versions
    /\ Version.status v = "activated"
    /\ @URL_parse Demo.url (Version.scriptURL v) = Some sr
    /\ origin sr = origin pageUrl
    /\ find (fun r => (Registration.registrationId r
                       =? Version.registrationId v)%string)
            Demo.registrations = Some r
    /\ Registration.registrationId r = Version.registrationId v
    /\ @URL_parse Demo.url (Registration.scopeURL r) = Some sc
    /\ "debugdata" = "debugdata"
    /\ "https://example.com/app/sw-v2.js" = href sr
    /\ "https://example.com/app/" = href sc
    /\ startsWith (href pageUrl) (href sc) = true.
Proof.
  apply (@audit_details_provenance Demo.url Demo.passing
           {| Product.score := 1;
              Product.explanation := None;
              Product.details :=
                Some {| DebugData.type := "debugdata";
                        DebugData.scriptUrl :=
                          "https://example.com/app/sw-v2.js";
                        DebugData.scopeUrl := "https://example.com/app/" |} |}
           {| DebugData.type := "debugdata";
              DebugData.scriptUrl := "https://example.com/app/sw-v2.js";
              DebugData.scopeUrl := "https://example.com/app/" |});
    reflexivity.
Defined.

(** The page https://example.com/shop/cart is in the scope of the root
    worker only; without that worker no candidate is in scope. *)
Lemma resolver_absent_iff_witness :
  @getControllingServiceWorker Demo.url
    [Demo.app_worker; Demo.app_worker_v2] Demo.registrations Demo.other_page
  = Normal None
  <-> Forall (fun c => startsWith (href Demo.other_page) (scopeUrl c) = false)
        [ {| scopeUrl := "https://example.com/app/";
             scriptUrl := "https://example.com/app/sw.js" |};
          {| scopeUrl := "https://example.com/app/";
             scriptUrl := "https://example.com/app/sw-v2.js" |} ].
Proof.
  apply (@resolver_absent_iff Demo.url
           [Demo.app_worker; Demo.app_worker_v2] Demo.registrations
           Demo.other_page).
  reflexivity.
Defined.

Lemma audit_pass_sound_witness :
  exists pageUrl d start,
    @URL_parse Demo.url "https://example.com/app/page" = Some pageUrl
    /\ @None IcuMessage = None
    /\ Some {| DebugData.type := "debugdata";
               DebugData.scriptUrl := "https://example.com/app/sw-v2.js";
               DebugData.scopeUrl := "https://example.com/app/" |} = Some d
    /\ Some "https://example.com/app/index.html" = Some start
    /\ startsWith (href pageUrl) (DebugData.scopeUrl d) = true
    /\ startsWith start (DebugData.scopeUrl d) = true.
Proof.
  apply (@audit_pass_sound Demo.url Demo.passing
           {| Product.score := 1;
              Product.explanation := None;
              Product.details :=
                Some {| DebugData.type := "debugdata";
                        DebugData.scriptUrl :=
                          "https://example.com/app/sw-v2.js";
                        DebugData.scopeUrl := "https://example.com/app/" |} |});
    reflexivity.
Defined.

(** The redundant worker of the sample versions has a relative script URL;
    taking it out changes nothing. *)
Lemma audit_ignores_inactive_version_witness :
  @audit Demo.url Demo.passing
  = @audit Demo.url
      (Demo.artifacts "https://example.com/app/page"
         [Demo.root_worker; Demo.foreign_worker; Demo.app_worker;
          Demo.unjoined_worker; Demo.app_worker_v2]
         (Demo.manifest "https://example.com/app/index.html")).
Proof.
  apply (@audit_ignores_inactive_version Demo.url
           "https://example.com/app/page" [] _ Demo.redundant_worker).
  discriminate.
Defined.

Lemma audit_ignores_foreign_version_witness :
  @audit Demo.url Demo.passing
  = @audit Demo.url
      (Demo.artifacts "https://example.com/app/page"
         [Demo.redundant_worker; Demo.root_worker; Demo.app_worker;
          Demo.unjoined_worker; Demo.app_worker_v2]
         (Demo.manifest "https://example.com/app/index.html")).
Proof.
  apply (@audit_ignores_foreign_version Demo.url
           "https://example.com/app/page" Demo.page
           {| href := "https://other.example/sw.js";
              origin := "https://other.example" |}
           [Demo.redundant_worker; Demo.root_worker] _ Demo.foreign_worker).
  - reflexivity.
  - reflexivity.
  - discriminate.
Defined.

Lemma getVersionsForOrigin_idempotent_witness :
  @getVersionsForOrigin Demo.url
    [Demo.root_worker; Demo.app_worker; Demo.unjoined_worker;
     Demo.app_worker_v2] Demo.page
  = Normal [Demo.root_worker; Demo.app_worker; Demo.unjoined_worker;
            Demo.app_worker_v2].
Proof.
  apply (@getVersionsForOrigin_idempotent Demo.url Demo.versions).
  reflexivity.
Defined.

Lemma audit_without_registrations_witness :
  0 = 0
  /\ @None DebugData.t = None
  /\ (Some (str_ UIStrings.explanationOutOfScope
              [("pageUrl", "https://example.com/app/page")]) = None
      \/ exists pageUrl,
           @URL_parse Demo.url "https://example.com/app/page" = Some pageUrl
           /\ Some (str_ UIStrings.explanationOutOfScope
                      [("pageUrl", "https://example.com/app/page")])
              = Some (str_ UIStrings.explanationOutOfScope
                        [("pageUrl", href pageUrl)])).
Proof.
  apply (@audit_without_registrations Demo.url
           {| Artifacts.URL :=
                {| Artifacts.finalUrl := "https://example.com/app/page" |};
              Artifacts.ServiceWorker :=
                {| Artifacts.versions := Demo.versions;
                   Artifacts.registrations := [] |};
              Artifacts.WebAppManifest := None |}
           {| Product.score := 0;
              Product.explanation :=
                Some (str_ UIStrings.explanationOutOfScope
                        [("pageUrl", "https://example.com/app/page")]);
              Product.details := None |});
    reflexivity.
Defined.

Lemma resolver_scope_order_independent_witness :
  option_map scopeUrl
    (Some {| scopeUrl := "https://example.com/app/";
             scriptUrl := "https://example.com/app/sw-v2.js" |})
  = option_map scopeUrl
      (Some {| scopeUrl := "https://example.com/app/";
               scriptUrl := "https://example.com/app/sw.js" |}).
Proof.
  destruct (@resolver_scope_order_independent Demo.url
              [Demo.app_worker; Demo.app_worker_v2]
              [Demo.app_worker_v2; Demo.app_worker]
              Demo.registrations Demo.page (perm_swap _ _ _)) as [_ Same].
  apply Same; reflexivity.
Defined.

(** The two verdicts differ in the script they report and in nothing else. *)
Lemma audit_order_independent_witness :
  Product.score
    {| Product.score := 1;
       Product.explanation := None;
       Product.details :=
         Some {| DebugData.type := "debugdata";
                 DebugData.scriptUrl := "https://example.com/app/sw-v2.js";
                 DebugData.scopeUrl := "https://example.com/app/" |} |}
  = Product.score
      {| Product.score := 1;
         Product.explanation := None;
         Product.details :=
           Some {| DebugData.type := "debugdata";
                   DebugData.scriptUrl := "https://example.com/app/sw.js";
                   DebugData.scopeUrl := "https://example.com/app/" |} |}
  /\ @None IcuMessage = None
  /\ Some "https://example.com/app/" = Some "https://example.com/app/".
Proof.
  destruct (@audit_order_independent Demo.url "https://example.com/app/page"
              [Demo.app_worker; Demo.app_worker_v2]
              [Demo.app_worker_v2; Demo.app_worker]
              Demo.registrations
              (Demo.manifest "https://example.com/app/index.html")
              (perm_swap _ _ _)) as [_ Same].
  apply (Same
           {| Product.score := 1;
              Product.explanation := None;
              Product.details :=
                Some {| DebugData.type := "debugdata";
                        DebugData.scriptUrl :=
                          "https://example.com/app/sw-v2.js";
                        DebugData.scopeUrl := "https://example.com/app/" |} |}
           {| Product.score := 1;
              Product.explanation := None;
              Product.details :=
                Some {| DebugData.type := "debugdata";
                        DebugData.scriptUrl := "https://example.com/app/sw.js";
                        DebugData.scopeUrl := "https://example.com/app/" |} |});
    reflexivity.
Defined.

(** * The service-worker registration helper *)

(** ** The matcher and the language of an expression *)

Lemma string_app_nil_r (s : string) : (s ++ EmptyString)%string = s.
Proof. induction s as [| c s IH]; simpl; [reflexivity | now rewrite IH]. Qed.

Lemma string_app_assoc (a b c : string) :
  ((a ++ b) ++ c)%string = (a ++ (b ++ c))%string.
Proof. induction a as [| x a IH]; simpl; [reflexivity | now rewrite IH]. Qed.

Lemma run_Times_S (n : nat) (r : RegExp.t) (s : string)
    (k : string -> bool) :
  RegExp.run (RegExp.Times (S n) r) s k
  = RegExp.run r s (fun rest => RegExp.run (RegExp.Times n r) rest k).
Proof. reflexivity. Qed.

(** The matcher accepts exactly when a string of the language is a prefix
    whose rest the continuation accepts. *)
Lemma run_correct (r : RegExp.t) :
  forall s k,
    RegExp.run r s k = true
    <-> exists s1 s2, s = (s1 ++ s2)%string
                      /\ RegExp.matches r s1 /\ k s2 = true.
Proof.
  induction r as [c | items | r1 IH1 r2 IH2 | r1 IH1 r2 IH2 | r1 IH1 | n r1 IH1];
    intros s k.
  - (* Chr *)
    destruct s as [| d rest]; simpl.
    + split; [discriminate | intros (s1 & s2 & E & M & _)].
      inversion M; subst. discriminate E.
    + rewrite andb_true_iff, Ascii.eqb_eq. split.
      * intros [-> K]. exists (String c EmptyString), rest.
        repeat split; [constructor | exact K].
      * intros (s1 & s2 & E & M & K). inversion M; subst.
        inversion E. now split.
  - (* Class *)
    destruct s as [| d rest]; simpl.
    + split; [discriminate | intros (s1 & s2 & E & M & _)].
      inversion M; subst. discriminate E.
    + rewrite andb_true_iff. split.
      * intros [C K]. exists (String d EmptyString), rest.
        repeat split; [now constructor | exact K].
      * intros (s1 & s2 & E & M & K). inversion M; subst.
        inversion E. now split.
  - (* Seq *)
    simpl. rewrite IH1. split.
    + intros (s1 & s2 & -> & M1 & K). apply IH2 in K.
      destruct K as (s3 & s4 & -> & M2 & K).
      exists (s1 ++ s3)%string, s4. rewrite string_app_assoc.
      repeat split; [now constructor | exact K].
    + intros (s12 & s4 & -> & M & K). inversion M; subst.
      exists s1, (s2 ++ s4)%string. rewrite string_app_assoc.
      repeat split; [assumption |]. apply IH2. now exists s2, s4.
  - (* Alt *)
    simpl. rewrite orb_true_iff, IH1, IH2. split.
    + intros [(s1 & s2 & E & M & K) | (s1 & s2 & E & M & K)];
        exists s1, s2; repeat split; try assumption;
        [now apply RegExp.m_Alt_l | now apply RegExp.m_Alt_r].
    + intros (s1 & s2 & E & M & K). inversion M; subst;
        [left | right]; now exists s1, s2.
  - (* Opt *)
    simpl. rewrite orb_true_iff, IH1. split.
    + intros [(s1 & s2 & E & M & K) | K].
      * exists s1, s2. repeat split; try assumption.
        now apply RegExp.m_Opt_some.
      * exists EmptyString, s. repeat split; [apply RegExp.m_Opt_none | exact K].
    + intros (s1 & s2 & E & M & K). inversion M; subst.
      * left. now exists s1, s2.
      * right. exact K.
  - (* Times *)
    revert s k. induction n as [| n IHn]; intros s k.
    + simpl. split.
      * intros K. exists EmptyString, s. repeat split; [constructor | exact K].
      * intros (s1 & s2 & -> & M & K). inversion M; subst. exact K.
    + rewrite run_Times_S, IH1. split.
      * intros (s1 & s2 & -> & M1 & K). apply IHn in K.
        destruct K as (s3 & s4 & -> & M2 & K).
        exists (s1 ++ s3)%string, s4. rewrite string_app_assoc.
        repeat split; [now constructor | exact K].
      * intros (s12 & s4 & -> & M & K). inversion M; subst.
        exists s1, (s2 ++ s4)%string. rewrite string_app_assoc.
        repeat split; [assumption |]. apply IHn. now exists s2, s4.
Qed.

(** An anchored test decides the language. *)
Lemma test_anchored_correct (r : RegExp.t) (s : string) :
  RegExp.test_anchored r s = true <-> RegExp.matches r s.
Proof.
  unfold RegExp.test_anchored. rewrite run_correct. split.
  - intros (s1 & s2 & -> & M & K). destruct s2; [| discriminate K].
    now rewrite string_app_nil_r.
  - intros M. exists s, EmptyString. rewrite string_app_nil_r.
    repeat split. exact M.
Qed.

(** ** [isLocalhost] *)

Lemma ascii_eqb_nat (d c : ascii) :
  (d =? c)%char = (nat_of_ascii d =? nat_of_ascii c)%nat.
Proof.
  destruct (Ascii.eqb_spec d c) as [-> | N].
  - now rewrite Nat.eqb_refl.
  - symmetry. apply Nat.eqb_neq. intros E. apply N.
    rewrite <- (ascii_nat_embedding d), <- (ascii_nat_embedding c).
    now rewrite E.
Qed.

Lemma false_is_true : false = true <-> False.
Proof. split; [discriminate | contradiction]. Qed.

Lemma true_is_true : true = true <-> True.
Proof. split; auto. Qed.

(** The expression for one octet accepts exactly the texts of one to three
    decimal digits that denote a number up to 255. *)
Lemma octet_decides (a : string) :
  RegExp.test_anchored Localhost.octet a = Localhost.octet_text a.
Proof.
  unfold RegExp.test_anchored, Localhost.octet_text, Localhost.decimal.
  destruct a as [| x [| y [| z [| w rest]]]];
    cbn -[Nat.leb Nat.eqb Nat.mul nat_of_ascii];
    rewrite ?ascii_eqb_nat;
    try reflexivity.
  all: try (set (nx := nat_of_ascii x) in *; clearbody nx).
  all: try (set (ny := nat_of_ascii y) in *; clearbody ny).
  all: try (set (nz := nat_of_ascii z) in *; clearbody nz).
  all: try (set (nw := nat_of_ascii w) in *; clearbody nw).
  all: cbn -[Nat.leb Nat.eqb Nat.mul Nat.sub Nat.add].
  all: apply eq_true_iff_eq.
  all: repeat first
         [ rewrite andb_true_iff | rewrite orb_true_iff
         | rewrite Nat.leb_le | rewrite Nat.eqb_eq
         | rewrite false_is_true | rewrite true_is_true ].
  all: lia.
Qed.

Lemma matches_octet (a : string) :
  RegExp.matches Localhost.octet a <-> Localhost.octet_text a = true.
Proof. now rewrite <- test_anchored_correct, octet_decides. Qed.

Ltac invert_matches :=
  repeat match goal with
    | H : RegExp.matches (RegExp.Seq _ _) _ |- _ => inversion H; subst; clear H
    | H : RegExp.matches (RegExp.Chr _) _ |- _ => inversion H; subst; clear H
    | H : RegExp.matches (RegExp.Times _ _) _ |- _ =>
        inversion H; subst; clear H
    end.

Lemma matches_loopback (h : string) :
  RegExp.matches Localhost.loopback h
  <-> exists a b c,
        h = ("127." ++ a ++ "." ++ b ++ "." ++ c)%string
        /\ RegExp.matches Localhost.octet a
        /\ RegExp.matches Localhost.octet b
        /\ RegExp.matches Localhost.octet c.
Proof.
  unfold Localhost.loopback. split.
  - intros M. invert_matches. eexists _, _, _. split.
    + cbn [append]. rewrite string_app_nil_r. reflexivity.
    + repeat split; assumption.
  - intros (a & b & c & -> & Ha & Hb & Hc).
    replace ("127." ++ a ++ "." ++ b ++ "." ++ c)%string
      with ("1" ++ ("2" ++ ("7" ++ (("." ++ a)
              ++ (("." ++ b) ++ (("." ++ c) ++ EmptyString))))))%string
      by (cbn [append]; now rewrite string_app_nil_r).
    repeat (constructor; try assumption).
Qed.

(** X12. [isLocalhost] holds of a hostname exactly when it is 'localhost',
    '[::1]', or 127 followed by three dot-separated octets, each written
    with one to three decimal digits (leading zeros allowed) and denoting a
    number up to 255: the dotted forms of 127.0.0.0/8 and nothing else. *)
Theorem isLocalhost_spec (hostname : string) :
  Localhost.isLocalhost hostname = true
  <-> hostname = "localhost"
      \/ hostname = "[::1]"
      \/ exists a b c,
           hostname = ("127." ++ a ++ "." ++ b ++ "." ++ c)%string
           /\ Localhost.octet_text a = true
           /\ Localhost.octet_text b = true
           /\ Localhost.octet_text c = true.
Proof.
  unfold Localhost.isLocalhost.
  rewrite !orb_true_iff, !String.eqb_eq, test_anchored_correct,
    matches_loopback.
  split.
  - intros [[L | L] | (a & b & c & E & Ha & Hb & Hc)];
      [now left | right; now left | right; right].
    exists a, b, c. rewrite <- !matches_octet. now repeat split.
  - intros [L | [L | (a & b & c & E & Ha & Hb & Hc)]];
      [left; now left | left; now right | right].
    exists a, b, c. rewrite !matches_octet. now repeat split.
Qed.

(** * More on the controlling scope *)

Lemma startsWith_trans (s p q : string) :
  startsWith s p = true -> startsWith p q = true -> startsWith s q = true.
Proof.
  rewrite !startsWith_spec. intros [r1 ->] [r2 ->].
  exists (r2 ++ r1)%string. apply string_app_assoc.
Qed.

(** No element is longer than the one [sort] then [pop] selects. *)
Lemma pop_sort_longest (l : list ScriptByScope) (ss c : ScriptByScope) :
  pop (sort by_scope_length l) = Some ss -> In c l ->
  String.length (scopeUrl c) <= String.length (scopeUrl ss).
Proof.
  intros P Hc.
  destruct (@pop_sort_last_longest l) as (m & f & b & Pm & E & F & B).
  { intros ->. contradiction Hc. }
  rewrite P in Pm. inversion Pm; subst m.
  rewrite E in Hc. rewrite Forall_forall in F, B.
  apply in_app_or in Hc. destruct Hc as [Hc | [<- | Hc]].
  - now apply F.
  - reflexivity.
  - apply Nat.lt_le_incl. now apply B.
Qed.

Section ScopeGrowth.

Context {U : UrlShim}.

(** X13. More versions can only make the controlling scope more specific:
    when the resolver returns a match for a list of versions and returns
    for a list that contains them all, it returns a match there too, and
    its scope is at least as long. *)
Theorem resolver_scope_grows (versions1 versions2 : list Version.t)
    (registrations : list Registration.t) (pageUrl : URL)
    (s1 : ScriptByScope) (r2 : option ScriptByScope) :
  incl versions1 versions2 ->
  getControllingServiceWorker versions1 registrations pageUrl
  = Normal (Some s1) ->
  getControllingServiceWorker versions2 registrations pageUrl = Normal r2 ->
  exists s2,
    r2 = Some s2
    /\ String.length (scopeUrl s1) <= String.length (scopeUrl s2).
Proof.
  intros Incl E1 E2.
  apply getControllingServiceWorker_In in E1.
  destruct E1 as (c1 & P1 & I1 & S1).
  apply getControllingServiceWorker_Normal in E2.
  destruct E2 as (c2 & P2 & ->).
  destruct (populate_pairs versions1 registrations []) as [_ L1].
  destruct (populate_pairs versions2 registrations []) as [_ L2].
  rewrite (L1 c1 P1) in I1. rewrite (L2 c2 P2). simpl in *.
  assert (I2 : In s1 (filter (fun c => startsWith (href pageUrl) (scopeUrl c))
                        (flat_map (pairs_of registrations) versions2))).
  { apply filter_In. split; [| exact S1].
    apply in_flat_map in I1. destruct I1 as (v & Hv & Hs).
    apply in_flat_map. exists v. split; [now apply Incl | exact Hs]. }
  destruct (pop _) as [s2 |] eqn:Hpop.
  - exists s2. split; [reflexivity |]. exact (@pop_sort_longest _ _ _ Hpop I2).
  - apply pop_None in Hpop.
    apply (proj2 (sort_In by_scope_length _ s1)) in I2.
    rewrite Hpop in I2. contradiction I2.
Qed.

(** X14. A start_url under the page passes with the page: when the
    start_url the manifest carries starts with the page's href, every
    verdict [audit] returns with details attached is a pass. *)
Theorem audit_start_url_under_page (a : Artifacts.t) (p : Product.t)
    (pageUrl : URL) (start : string) :
  audit a = Normal p ->
  URL_parse (Artifacts.finalUrl (Artifacts.URL a)) = Some pageUrl ->
  manifest_start_url a = Some start ->
  startsWith start (href pageUrl) = true ->
  Product.details p <> None ->
  Product.score p = 1 /\ Product.explanation p = None.
Proof.
  intros E P M S D.
  destruct (Product.details p) as [d |] eqn:Hd; [| contradiction D; reflexivity].
  destruct (audit_details_inv a E Hd)
    as (pageUrl' & ss & P' & R & _ & [(S1 & X & _) | (_ & X & N)]);
    [now split |].
  exfalso. apply N. rewrite X.
  rewrite P in P'. inversion P'; subst pageUrl'.
  apply getControllingServiceWorker_In in R. destruct R as (_ & _ & _ & Sp).
  unfold manifest_start_url in M. unfold checkStartUrl.
  destruct (Artifacts.WebAppManifest a) as [[[[start'] |]] |];
    try discriminate M.
  cbn [Manifest.value ManifestValues.start_url] in *.
  inversion M; subst start'.
  now rewrite (startsWith_trans _ _ _ S Sp).
Qed.

End ScopeGrowth.

Lemma resolver_scope_grows_witness :
  exists s2,
    Some {| scopeUrl := "https://example.com/app/";
            scriptUrl := "https://example.com/app/sw-v2.js" |} = Some s2
    /\ String.length "https://example.com/" <= String.length (scopeUrl s2).
Proof.
  apply (@resolver_scope_grows Demo.url
           [Demo.root_worker]
           [Demo.root_worker; Demo.app_worker; Demo.unjoined_worker;
            Demo.app_worker_v2]
           Demo.registrations Demo.page
           {| scopeUrl := "https://example.com/";
              scriptUrl := "https://example.com/sw.js" |}).
  - intros v Hv. simpl in Hv. in_cases Hv. now left.
  - reflexivity.
  - reflexivity.
Defined.

(** The start_url is the page with a query; the page is in scope. *)
Lemma audit_start_url_under_page_witness :
  1 = 1 /\ @None IcuMessage = None.
Proof.
  apply (@audit_start_url_under_page Demo.url
           (Demo.artifacts "https://example.com/app/page" Demo.versions
              (Demo.manifest "https://example.com/app/page?source=pwa"))
           {| Product.score := 1;
              Product.explanation := None;
              Product.details :=
                Some {| DebugData.type := "debugdata";
                        DebugData.scriptUrl :=
                          "https://example.com/app/sw-v2.js";
                        DebugData.scopeUrl := "https://example.com/app/" |} |}
           Demo.page "https://example.com/app/page?source=pwa").
  - reflexivity.
  - reflexivity.
  - reflexivity.
  - reflexivity.
  - discriminate.
Defined.

(** ** [checkValidServiceWorker] *)

Lemma indexOf_lower_bound (s p : string) : (-1 <= Helper.indexOf s p)%Z.
Proof.
  induction s as [| c s IH]; cbn [Helper.indexOf].
  - destruct (startsWith EmptyString p); lia.
  - destruct (startsWith (String c s) p); [lia |].
    destruct (Z.eqb_spec (Helper.indexOf s p) (-1)); lia.
Qed.

(** [indexOf] finds an occurrence when there is one ... *)
Lemma indexOf_found_iff (s p : string) :
  Helper.indexOf s p <> (-1)%Z
  <-> exists before after, s = (before ++ p ++ after)%string.
Proof.
  induction s as [| c s IH]; cbn [Helper.indexOf].
  - destruct (startsWith EmptyString p) eqn:S.
    + split; [intros _ | discriminate].
      apply startsWith_spec in S. destruct S as [rest E].
      now exists EmptyString, rest.
    + split; [intros N; contradiction N; reflexivity |].
      intros (before & after & E). destruct before; [| discriminate E].
      simpl in E. assert (T : startsWith EmptyString p = true)
        by (apply startsWith_spec; now exists after).
      rewrite T in S. discriminate S.
  - destruct (startsWith (String c s) p) eqn:S.
    + split; [intros _ | discriminate].
      apply startsWith_spec in S. destruct S as [rest E].
      now exists EmptyString, rest.
    + pose proof (indexOf_lower_bound s p) as B.
      destruct (Z.eqb_spec (Helper.indexOf s p) (-1)) as [E1 | N1].
      * split; [intros N; contradiction N; reflexivity |].
        intros (before & after & E). destruct before as [| d before].
        -- simpl in E. assert (T : startsWith (String c s) p = true)
             by (apply startsWith_spec; now exists after).
           rewrite T in S. discriminate S.
        -- simpl in E. inversion E; subst d.
           exfalso. apply (proj2 IH); [now exists before, after | exact E1].
      * split; [intros _ | intros _; lia].
        destruct (proj1 IH N1) as (before & after & ->).
        now exists (String c before), after.
Qed.

(** X15. Once the fetch has resolved, [checkValidServiceWorker] goes on to
    register the worker exactly when the status is not 404 and the response
    has no content-type header or one that contains 'javascript' (in lower
    case); on every other response it unregisters the worker and reloads
    the page. When the fetch rejects it only logs. *)
Theorem checkValidServiceWorker_cases (Config : Type) (swUrl : string)
    (config : Config) :
  (forall response,
      Helper.checkValidServiceWorker swUrl config (Some response)
      = Helper.RegisterValidSW swUrl config
      <-> Helper.status response <> 404
          /\ (Helper.content_type response = None
              \/ exists before after,
                   Helper.content_type response
                   = Some (before ++ "javascript" ++ after)%string))
  /\ (forall response,
        Helper.checkValidServiceWorker swUrl config (Some response)
        = Helper.UnregisterAndReload
        <-> Helper.status response = 404
            \/ exists text,
                 Helper.content_type response = Some text
                 /\ ~ exists before after,
                        text = (before ++ "javascript" ++ after)%string)
  /\ Helper.checkValidServiceWorker swUrl config None = Helper.LogOffline.
Proof.
  split; [| split; [| reflexivity]]; intros [status [text |]];
    unfold Helper.checkValidServiceWorker; cbn [Helper.status Helper.content_type].
  - destruct (Nat.eqb_spec status 404) as [E | N]; cbn [orb].
    + split; [discriminate | intros [N _]; contradiction].
    + destruct (Z.eqb_spec (Helper.indexOf text "javascript") (-1)) as [E | F].
      * split; [discriminate | intros [_ [D | (b & a & D)]]];
          [discriminate D |].
        injection D as Et. exfalso.
        apply (proj2 (indexOf_found_iff text "javascript"));
          [now exists b, a | exact E].
      * split; [intros _ | reflexivity]. split; [exact N | right].
        apply indexOf_found_iff in F. destruct F as (b & a & Et).
        exists b, a. now rewrite Et.
  - destruct (Nat.eqb_spec status 404) as [E | N]; cbn [orb].
    + split; [discriminate | intros [N _]; contradiction].
    + split; [intros _ | reflexivity]. split; [exact N | now left].
  - destruct (Nat.eqb_spec status 404) as [E | N]; cbn [orb].
    + split; [intros _; now left | reflexivity].
    + destruct (Z.eqb_spec (Helper.indexOf text "javascript") (-1)) as [E | F].
      * split; [intros _ | reflexivity]. right. exists text.
        split; [reflexivity |]. intros C.
        apply indexOf_found_iff in C. contradiction.
      * split; [discriminate | intros [E | (t & D & C)]];
          [contradiction |].
        injection D as Et. subst t. exfalso. apply C.
        now apply indexOf_found_iff.
  - destruct (Nat.eqb_spec status 404) as [E | N]; cbn [orb].
    + split; [intros _; now left | reflexivity].
    + split; [discriminate | intros [E | (t & D & _)]];
        [contradiction | discriminate D].
Qed.

(** * The pages *)

(** ** SingleDog: the checkboxes *)

Section SingleDogEffect.

Variables isToday isPM : string -> bool.

Lemma after_potty_entries (entries : list SingleDog.Entry)
    (st : SingleDog.Checked) :
  SingleDog.after st
    (flat_map (fun p => if SingleDog.this_afternoon isToday isPM p
                        then [SingleDog.Log "Yes potty!";
                              SingleDog.SetDogPotty true]
                        else [SingleDog.Log "No potty!"]) entries)
  = {| SingleDog.dogPotty :=
         SingleDog.dogPotty st
         || existsb (SingleDog.this_afternoon isToday isPM) entries;
       SingleDog.dogWalk := SingleDog.dogWalk st |}.
Proof.
  unfold SingleDog.after. revert st.
  induction entries as [| p entries IH]; intros [potty walk]; simpl.
  - now rewrite orb_false_r.
  - destruct (SingleDog.this_afternoon isToday isPM p); simpl; rewrite IH;
      simpl; [now rewrite orb_true_r | reflexivity].
Qed.

Lemma after_walk_entries (entries : list SingleDog.Entry)
    (st : SingleDog.Checked) :
  SingleDog.after st
    (flat_map (fun p => if SingleDog.this_afternoon isToday isPM p
                        then [SingleDog.Log "Yes walk!";
                              SingleDog.SetDogWalk true]
                        else [SingleDog.Log "No walk!"]) entries)
  = {| SingleDog.dogPotty := SingleDog.dogPotty st;
       SingleDog.dogWalk :=
         SingleDog.dogWalk st
         || existsb (SingleDog.this_afternoon isToday isPM) entries |}.
Proof.
  unfold SingleDog.after. revert st.
  induction entries as [| p entries IH]; intros [potty walk]; simpl.
  - now rewrite orb_false_r.
  - destruct (SingleDog.this_afternoon isToday isPM p); simpl; rewrite IH;
      simpl; [now rewrite orb_true_r | reflexivity].
Qed.

(** X16. After the effect on [dogData], a checkbox is checked exactly when
    it was checked before or its list has an entry with a non-empty
    username whose timestamp is of today and of the afternoon; the effect
    never unchecks a box, and the entries of one list do not touch the
    other box. A missing list counts as an empty one. *)
Theorem dogData_effect_checks (dogData : SingleDog.DogData)
    (st : SingleDog.Checked) :
  SingleDog.after st (SingleDog.dogData_effect isToday isPM dogData)
  = {| SingleDog.dogPotty :=
         SingleDog.dogPotty st
         || match SingleDog.potty dogData with
            | Some entries =>
                existsb (SingleDog.this_afternoon isToday isPM) entries
            | None => false
            end;
       SingleDog.dogWalk :=
         SingleDog.dogWalk st
         || match SingleDog.walk dogData with
            | Some entries =>
                existsb (SingleDog.this_afternoon isToday isPM) entries
            | None => false
            end |}.
Proof.
  unfold SingleDog.dogData_effect, SingleDog.after. rewrite fold_left_app.
  fold (SingleDog.after st
          match SingleDog.potty dogData with
          | Some entries =>
              flat_map (fun p => if SingleDog.this_afternoon isToday isPM p
                                 then [SingleDog.Log "Yes potty!";
                                       SingleDog.SetDogPotty true]
                                 else [SingleDog.Log "No potty!"]) entries
          | None => []
          end).
  destruct dogData as [[potty |] [walk |]]; simpl SingleDog.potty;
    simpl SingleDog.walk; cbv iota.
  - rewrite after_potty_entries.
    exact (after_walk_entries walk _).
  - rewrite after_potty_entries. simpl. now rewrite orb_false_r.
  - destruct st as [p w]. simpl SingleDog.after at 1. rewrite orb_false_r.
    exact (after_walk_entries walk _).
  - destruct st as [p w]. simpl. now rewrite !orb_false_r.
Qed.

End SingleDogEffect.

(** ** SingleDog: Submit *)

(** X17. What Submit does in SingleDog. The walk mutation is sent exactly
    when the walk box is checked, and the potty mutation exactly when the
    potty box is checked and the walk mutation, if sent, did not reject;
    both carry the dog's id and no other. The page moves to '/dashboard'
    exactly when every mutation the boxes call for was fulfilled; in every
    case the handler returns, a rejection being logged. When the button is
    enabled the first effect is a mutation. *)
Theorem SingleDog_handleFormSubmit_effects (dogWalk dogPotty : bool)
    (canine_id : string)
    (addWalk addPotty : Async.Settled SingleDog.MutationResult) :
  (forall id,
      In (SingleDog.AddWalk id)
         (Async.effects (SingleDog.handleFormSubmit dogWalk dogPotty
                           canine_id addWalk addPotty))
      <-> id = canine_id /\ dogWalk = true)
  /\ (forall id,
        In (SingleDog.AddPotty id)
           (Async.effects (SingleDog.handleFormSubmit dogWalk dogPotty
                             canine_id addWalk addPotty))
        <-> id = canine_id /\ dogPotty = true
            /\ (dogWalk = true -> exists r, addWalk = Async.Fulfilled r))
  /\ (forall url,
        In (SingleDog.SetLocation url)
           (Async.effects (SingleDog.handleFormSubmit dogWalk dogPotty
                             canine_id addWalk addPotty))
        <-> url = "/dashboard"
            /\ (dogWalk = true -> exists r, addWalk = Async.Fulfilled r)
            /\ (dogPotty = true -> exists r, addPotty = Async.Fulfilled r))
  /\ snd (SingleDog.handleFormSubmit dogWalk dogPotty canine_id
            addWalk addPotty) = inl tt
  /\ (SingleDog.submit_disabled dogWalk dogPotty = false ->
      exists first rest,
        Async.effects (SingleDog.handleFormSubmit dogWalk dogPotty
                         canine_id addWalk addPotty) = first :: rest
        /\ (first = SingleDog.AddWalk canine_id
            \/ first = SingleDog.AddPotty canine_id)).
Proof.
  destruct dogWalk, dogPotty, addWalk as [rw | ew], addPotty as [rp | ep];
    cbn; (split; [| split; [| split; [| split]]]);
    try reflexivity;
    try (intros id; split;
         [ intros H; repeat destruct H as [H | H];
           try discriminate H; try contradiction H;
           inversion H; subst; repeat split; try reflexivity;
           intros; try discriminate; eauto
         | intros H; decompose record H; subst;
           try discriminate;
           repeat match goal with
             | A : true = true -> _ |- _ => specialize (A eq_refl)
             | A : exists _, _ = _ |- _ => destruct A
             end;
           try discriminate; tauto ]);
    try discriminate;
    try (intros _; eexists _, _; split; [reflexivity | tauto]).
Qed.

(** ** Login: the form state *)

Lemma get_set_same (o : Login.object) (key value : string) :
  Login.get (Login.set o key value) key = Some value.
Proof.
  induction o as [| [k v] o IH]; simpl.
  - now rewrite String.eqb_refl.
  - destruct (String.eqb_spec k key) as [-> | N]; simpl.
    + now rewrite String.eqb_refl.
    + apply String.eqb_neq in N. now rewrite N.
Qed.

Lemma get_set_other (o : Login.object) (key value other : string) :
  key <> other ->
  Login.get (Login.set o key value) other = Login.get o other.
Proof.
  intros N. induction o as [| [k v] o IH]; simpl.
  - apply String.eqb_neq in N. now rewrite N.
  - destruct (String.eqb_spec k key) as [-> | Nk]; simpl.
    + apply String.eqb_neq in N. now rewrite N.
    + now rewrite IH.
Qed.

(** After a sequence of change events, a field holds the value of the last
    event of its name, or what it held before when there is none. *)
Lemma get_after_changes (events : list Login.Target) (o : Login.object)
    (key : string) :
  Login.get (fold_left Login.handleChange events o) key
  = match Login.typed key events with
    | Some v => Some v
    | None => Login.get o key
    end.
Proof.
  induction events as [| [n v] events IH] using rev_ind; [reflexivity |].
  unfold Login.typed in *. rewrite !fold_left_app. cbn [fold_left].
  unfold Login.handleChange at 1. cbn [Login.name Login.value].
  destruct (String.eqb_spec n key) as [-> | N].
  - apply get_set_same.
  - rewrite get_set_other by exact N. exact IH.
Qed.

(** X18. The login form sends what was typed last: after any sequence of
    change events from the initial state, Submit sends the login mutation
    with, for email and for password, the value of the last change event of
    that name, or the empty string when there was none; change events of
    other names do not touch the two fields. *)
Theorem Login_sends_last_typed (events : list Login.Target)
    (settled : Async.Settled Login.Response) :
  exists rest,
    Async.effects
      (Login.handleFormSubmit
         (fold_left Login.handleChange events Login.initial) settled)
    = Login.PreventDefault
      :: Login.LoginMutation
           (Some match Login.typed "email" events with
                 | Some v => v
                 | None => EmptyString
                 end)
           (Some match Login.typed "password" events with
                 | Some v => v
                 | None => EmptyString
                 end)
      :: rest.
Proof.
  unfold Login.handleFormSubmit.
  rewrite !get_after_changes.
  replace (match Login.typed "email" events with
           | Some v => Some v
           | None => Login.get Login.initial "email"
           end)
    with (Some match Login.typed "email" events with
               | Some v => v
               | None => EmptyString
               end)
    by (destruct (Login.typed "email" events); reflexivity).
  replace (match Login.typed "password" events with
           | Some v => Some v
           | None => Login.get Login.initial "password"
           end)
    with (Some match Login.typed "password" events with
               | Some v => v
               | None => EmptyString
               end)
    by (destruct (Login.typed "password" events); reflexivity).
  destruct settled as [[[[[[[u |] t] |]] |]] | reason]; cbn; eexists;
    reflexivity.
Qed.

(** ** Login: Submit *)

(** X19. What Submit does in Login. The default action is prevented first
    in every case. The token is handed to [Auth.login], and the page moves
    to '/', exactly when the mutation is fulfilled with a response that has
    [data], [data.login] and [data.login.user]; [setIsAdmin] is then called
    with that user's [isAdmin]. In every case the handler returns: a
    rejection, or a missing part of the response, is logged. *)
Theorem Login_handleFormSubmit_effects (formState : Login.object)
    (settled : Async.Settled Login.Response) :
  (exists rest,
      Async.effects (Login.handleFormSubmit formState settled)
      = Login.PreventDefault :: rest)
  /\ (forall t,
        In (Login.AuthLogin t)
           (Async.effects (Login.handleFormSubmit formState settled))
        <-> exists d l u,
              settled = Async.Fulfilled {| Login.data := Some d |}
              /\ Login.login d = Some l
              /\ Login.user l = Some u
              /\ t = Login.token l)
  /\ (forall path,
        In (Login.HistoryPush path)
           (Async.effects (Login.handleFormSubmit formState settled))
        <-> path = "/"
            /\ exists d l u,
                 settled = Async.Fulfilled {| Login.data := Some d |}
                 /\ Login.login d = Some l
                 /\ Login.user l = Some u)
  /\ (forall b,
        In (Login.SetIsAdmin b)
           (Async.effects (Login.handleFormSubmit formState settled))
        <-> exists d l u,
              settled = Async.Fulfilled {| Login.data := Some d |}
              /\ Login.login d = Some l
              /\ Login.user l = Some u
              /\ b = Login.isAdmin u)
  /\ snd (Login.handleFormSubmit formState settled) = inl tt.
Proof.
  destruct settled as [[[[[[[u |] t] |]] |]] | reason]; cbn;
    (split; [eexists; reflexivity |]);
    (split; [| split; [| split]]);
    try reflexivity;
    (intros x; split;
     [ intros H; repeat destruct H as [H | H];
       try discriminate H; try contradiction H;
       inversion H; subst;
       try (split; [reflexivity |]);
       eexists _, _, _; repeat split; reflexivity
     | intros H;
       repeat match goal with
         | H : _ /\ _ |- _ => destruct H
         | H : exists _, _ |- _ => destruct H
         end;
       repeat match goal with
         | E : Async.Fulfilled _ = Async.Fulfilled _ |- _ => injection E as E
         | E : Async.Rejected _ = Async.Fulfilled _ |- _ => discriminate E
         | E : Some _ = Some _ |- _ => injection E as E
         | E : None = Some _ |- _ => discriminate E
         | E : _ = ?v |- _ => is_var v; subst v; cbn in *
         | E : ?v = _ |- _ => is_var v; subst v; cbn in *
         end;
       cbn; auto 10 ]).
Qed.

(** * Registrations that are never read *)

Section RegistrationsNeverRead.

Context {U : UrlShim}.

Lemma populate_find_ext (versions : list Version.t)
    (registrations1 registrations2 : list Registration.t) :
  (forall v, In v versions ->
     find (joins v) registrations1 = find (joins v) registrations2) ->
  forall acc,
    populate versions registrations1 acc = populate versions registrations2 acc.
Proof.
  induction versions as [| v versions IH]; intros H acc; [reflexivity |].
  rewrite !populate_cons. unfold contribution.
  rewrite (H v (or_introl eq_refl)).
  destruct (find (joins v) registrations2) as [r |]; cbn [bind].
  - destruct (new_URL (Registration.scopeURL r)); [cbn [bind] | reflexivity].
    destruct (new_URL (Version.scriptURL v)); [cbn [bind] | reflexivity].
    apply IH. intros v' Hv'. apply H. now right.
  - apply IH. intros v' Hv'. apply H. now right.
Qed.

(** [audit] reads the registrations through the joins of the activated
    versions only. *)
Lemma audit_registrations_congruence (final : string)
    (versions : list Version.t)
    (registrations1 registrations2 : list Registration.t)
    (m : option Manifest.t) :
  (forall v, In v versions -> Version.status v = "activated" ->
     find (joins v) registrations1 = find (joins v) registrations2) ->
  audit {| Artifacts.URL := {| Artifacts.finalUrl := final |};
           Artifacts.ServiceWorker :=
             {| Artifacts.versions := versions;
                Artifacts.registrations := registrations1 |};
           Artifacts.WebAppManifest := m |}
  = audit {| Artifacts.URL := {| Artifacts.finalUrl := final |};
             Artifacts.ServiceWorker :=
               {| Artifacts.versions := versions;
                  Artifacts.registrations := registrations2 |};
             Artifacts.WebAppManifest := m |}.
Proof.
  intros H. unfold audit. simpl.
  destruct (new_URL final) as [pageUrl | e]; [cbn [bind] | reflexivity].
  destruct (getVersionsForOrigin versions pageUrl) as [vfo | e] eqn:F;
    [cbn [bind] | reflexivity].
  destruct (List.length vfo =? 0)%nat; [reflexivity |].
  unfold getControllingServiceWorker.
  rewrite (@populate_find_ext vfo registrations1 registrations2);
    [reflexivity |].
  intros v Hv. apply getVersionsForOrigin_Normal_inv in F. subst vfo.
  apply filter_In in Hv. destruct Hv as [Hv Hon].
  apply activated_on_origin_true in Hon. apply H; [exact Hv | apply Hon].
Qed.

Lemma find_app_first {A : Type} (f : A -> bool) (l1 l2 : list A) :
  find f (l1 ++ l2)
  = match find f l1 with
    | Some x => Some x
    | None => find f l2
    end.
Proof.
  induction l1 as [| x l1 IH]; simpl; [reflexivity |].
  destruct (f x); [reflexivity | exact IH].
Qed.

(** X20. A registration is read only through the id of an activated
    version: with or without a registration whose [registrationId] no
    activated version has, whatever its [scopeURL], [audit] gives the same
    result. *)
Theorem audit_ignores_unjoined_registration (final : string)
    (versions : list Version.t) (before after : list Registration.t)
    (r : Registration.t) (m : option Manifest.t) :
  (forall v, In v versions -> Version.status v = "activated" ->
     Version.registrationId v <> Registration.registrationId r) ->
  audit {| Artifacts.URL := {| Artifacts.finalUrl := final |};
           Artifacts.ServiceWorker :=
             {| Artifacts.versions := versions;
                Artifacts.registrations := before ++ r :: after |};
           Artifacts.WebAppManifest := m |}
  = audit {| Artifacts.URL := {| Artifacts.finalUrl := final |};
             Artifacts.ServiceWorker :=
               {| Artifacts.versions := versions;
                  Artifacts.registrations := before ++ after |};
             Artifacts.WebAppManifest := m |}.
Proof.
  intros H. apply audit_registrations_congruence. intros v Hv Hact.
  rewrite !find_app_first. cbn [find].
  assert (J : joins v r = false).
  { unfold joins. apply String.eqb_neq. intros E.
    apply (H v Hv Hact). now symmetry. }
  now rewrite J.
Qed.

(** X21. Only the first registration of an id is read: with or without a
    registration that follows another one of the same [registrationId],
    whatever its [scopeURL], [audit] gives the same result. *)
Theorem audit_ignores_shadowed_registration (final : string)
    (versions : list Version.t) (before between after : list Registration.t)
    (first shadowed : Registration.t) (m : option Manifest.t) :
  Registration.registrationId shadowed = Registration.registrationId first ->
  audit {| Artifacts.URL := {| Artifacts.finalUrl := final |};
           Artifacts.ServiceWorker :=
             {| Artifacts.versions := versions;
                Artifacts.registrations :=
                  before ++ first :: between ++ shadowed :: after |};
           Artifacts.WebAppManifest := m |}
  = audit {| Artifacts.URL := {| Artifacts.finalUrl := final |};
             Artifacts.ServiceWorker :=
               {| Artifacts.versions := versions;
                  Artifacts.registrations :=
                    before ++ first :: between ++ after |};
             Artifacts.WebAppManifest := m |}.
Proof.
  intros Same. apply audit_registrations_congruence. intros v _ _.
  assert (J : joins v shadowed = joins v first)
    by (unfold joins; now rewrite Same).
  rewrite (find_app_first _ before), (find_app_first _ before).
  destruct (find (joins v) before); [reflexivity |].
  cbn [find]. destruct (joins v first) eqn:Jf; [reflexivity |].
  rewrite !find_app_first.
  destruct (find (joins v) between); [reflexivity |].
  cbn [find]. now rewrite J.
Qed.

End RegistrationsNeverRead.

(** No version of the sample has the id "8". *)
Lemma audit_ignores_unjoined_registration_witness :
  @audit Demo.url
    {| Artifacts.URL :=
         {| Artifacts.finalUrl := "https://example.com/app/page" |};
       Artifacts.ServiceWorker :=
         {| Artifacts.versions := Demo.versions;
            Artifacts.registrations :=
              Demo.registrations ++ [Demo.registration "8" "not a URL"] |};
       Artifacts.WebAppManifest :=
         Demo.manifest "https://example.com/app/index.html" |}
  = @audit Demo.url Demo.passing.
Proof.
  refine (eq_trans
            (@audit_ignores_unjoined_registration Demo.url
               "https://example.com/app/page" Demo.versions
               Demo.registrations [] (Demo.registration "8" "not a URL")
               (Demo.manifest "https://example.com/app/index.html") _)
            eq_refl).
  intros v Hv _. unfold Demo.versions in Hv. simpl in Hv.
  in_cases Hv; discriminate.
Defined.

(** The sample registrations have the id "2" twice. *)
Lemma audit_ignores_shadowed_registration_witness :
  @audit Demo.url Demo.passing
  = @audit Demo.url
      {| Artifacts.URL :=
           {| Artifacts.finalUrl := "https://example.com/app/page" |};
         Artifacts.ServiceWorker :=
           {| Artifacts.versions := Demo.versions;
              Artifacts.registrations :=
                [Demo.registration "1" "HTTPS://Example.COM";
                 Demo.registration "2" "https://example.com/app/";
                 Demo.registration "5" "https://EXAMPLE.com/app/"] |};
         Artifacts.WebAppManifest :=
           Demo.manifest "https://example.com/app/index.html" |}.
Proof.
  apply (@audit_ignores_shadowed_registration Demo.url
           "https://example.com/app/page" Demo.versions
           [Demo.registration "1" "HTTPS://Example.COM"] []
           [Demo.registration "5" "https://EXAMPLE.com/app/"]
           (Demo.registration "2" "https://example.com/app/")
           (Demo.registration "2" "https://example.com/app/page/deeper/")).
  reflexivity.
Defined.

(** * The registration helper: the callbacks of [config] *)

(** X22. The handlers of [registerValidSW] call at most one callback of
    [config] per state change, and none unless the installing worker has
    reached the state 'installed': [onUpdate] exactly when a worker already
    controls the page, [onSuccess] exactly when none does, each only if
    [config] has it. Without an installing worker no handler is installed. *)
Theorem registerValidSW_callbacks (Callback : Type)
    (config : option (Registering.Config Callback)) (state : string)
    (controller : bool) :
  (forall callback,
      In (Registering.Call callback)
         (Registering.onstatechange config state controller)
      <-> state = "installed"
          /\ exists c,
               config = Some c
               /\ (if controller
                   then Registering.onUpdate c = Some callback
                   else Registering.onSuccess c = Some callback))
  /\ List.length
       (filter (fun e => match e with
                         | Registering.Call _ => true
                         | _ => false
                         end)
               (Registering.onstatechange config state controller)) <= 1
  /\ Registering.onupdatefound config false = None
  /\ Registering.onupdatefound config true
     = Some (Registering.onstatechange config).
Proof.
  split; [| split; [| split; reflexivity]].
  - intros callback. unfold Registering.onstatechange.
    destruct (String.eqb_spec state "installed") as [-> | N].
    + destruct controller, config as [[[u |] [s |]] |]; cbn; split;
        try (intros [H | [H | []]]; try discriminate H;
             inversion H; subst; split; [reflexivity |];
             eexists; split; reflexivity);
        try (intros [H | []]; discriminate H);
        try (intros (_ & c & E & F); inversion E; subst; cbn in F;
             first [discriminate F | inversion F; subst; auto]);
        try (intros (_ & c & E & _); discriminate E).
    + split; [intros [] | intros (E & _); contradiction].
  - unfold Registering.onstatechange.
    destruct (state =? "installed")%string; [| cbn; lia].
    destruct controller, config as [[[u |] [s |]] |]; cbn; lia.
Qed.
